(** * UE4SS header tools: a shallow embedding of [Tools/dump_converter.py]
      and [Tools/consolidator.py]

    A Python [str] is modelled by [string]; a character is a code point
    below 256 (the Latin-1 block), on which the character classes below
    agree with CPython's Unicode tables.  A [dict] is an association list
    in insertion order, a [set] a list read through membership only. *)

From Stdlib Require Import Bool Arith Lia List NArith ZArith Ascii String
  Permutation.
From Stdlib Require Import Sorted.
Import ListNotations.
Open Scope string_scope.

(** ** Python strings *)

Module PyStr.

Definition code (c : ascii) : N := N_of_ascii c.

Definition between (lo hi : N) (c : ascii) : bool :=
  (N.leb lo (code c) && N.leb (code c) hi)%bool.

Definition is_code (n : N) (c : ascii) : bool := N.eqb (code c) n.

(** [str.isdigit]: the decimal digits and the superscript digits. *)
Definition isdigit (c : ascii) : bool :=
  between 48 57 c || is_code 178 c || is_code 179 c || is_code 185 c.

(** [str.isalpha] on Latin-1. *)
Definition isalpha (c : ascii) : bool :=
  between 65 90 c || between 97 122 c || is_code 170 c || is_code 181 c
  || is_code 186 c || between 192 214 c || between 216 246 c
  || between 248 255 c.

(** [str.isnumeric] on Latin-1: digits, superscripts, vulgar fractions. *)
Definition isnumeric (c : ascii) : bool :=
  isdigit c || between 188 190 c.

Definition isalnum (c : ascii) : bool := isalpha c || isnumeric c.

(** [str.isspace] on Latin-1. *)
Definition isspace (c : ascii) : bool :=
  between 9 13 c || between 28 32 c || is_code 133 c || is_code 160 c.

Definition lower_char (c : ascii) : ascii :=
  if between 65 90 c || between 192 214 c || between 216 222 c
  then ascii_of_N (code c + 32) else c.

Definition upper_char (c : ascii) : ascii :=
  if between 97 122 c || between 224 246 c || between 248 254 c
  then ascii_of_N (code c - 32) else c.

(** [s.lower()] *)
Fixpoint lower (s : string) : string :=
  match s with
  | EmptyString => EmptyString
  | String c s' => String (lower_char c) (lower s')
  end.

(** [s.startswith(p)] *)
Fixpoint startswith (p s : string) : bool :=
  match p with
  | EmptyString => true
  | String a p' =>
      match s with
      | EmptyString => false
      | String b s' => Ascii.eqb a b && startswith p' s'
      end
  end.

(** [s.startswith((p1, p2, ...))] *)
Definition startswith_any (ps : list string) (s : string) : bool :=
  existsb (fun p => startswith p s) ps.

(** [s.endswith(p)] *)
Definition endswith (p s : string) : bool :=
  Nat.leb (String.length p) (String.length s)
  && String.eqb
       (substring (String.length s - String.length p) (String.length p) s) p.

(** [sub in s] *)
Fixpoint contains (sub s : string) : bool :=
  startswith sub s
  || match s with
     | EmptyString => false
     | String _ s' => contains sub s'
     end.

(** [s.rstrip(c)] for a one-character argument. *)
Fixpoint rstrip (c : ascii) (s : string) : string :=
  match s with
  | EmptyString => EmptyString
  | String a s' =>
      let r := rstrip c s' in
      if (String.eqb r EmptyString && Ascii.eqb a c)%bool
      then EmptyString else String a r
  end.

(** A slice bound, as Python normalises it against the length. *)
Definition clamp (i : Z) (len : nat) : nat :=
  let l := Z.of_nat len in
  if (i <? 0)%Z then Z.to_nat (Z.max (i + l) 0) else Z.to_nat (Z.min i l).

(** [s[i:j]] *)
Definition slice (i j : Z) (s : string) : string :=
  let a := clamp i (String.length s) in
  let b := clamp j (String.length s) in
  substring a (b - a) s.

(** [s[0]] when [s] is not empty. *)
Definition head (s : string) : option ascii :=
  match s with
  | EmptyString => None
  | String c _ => Some c
  end.

(** [a < b] on strings: lexicographic on code points. *)
Fixpoint ltb (a b : string) : bool :=
  match a, b with
  | _, EmptyString => false
  | EmptyString, String _ _ => true
  | String x a', String y b' =>
      if N.ltb (code x) (code y) then true
      else if N.ltb (code y) (code x) then false
      else ltb a' b'
  end.

(** Truthiness of a [str]. *)
Definition truthy (s : string) : bool := negb (String.eqb s EmptyString).

(** [s[n:]] for [n >= 0]. *)
Fixpoint drop (n : nat) (s : string) : string :=
  match n, s with
  | O, _ => s
  | S _, EmptyString => EmptyString
  | S n', String _ s' => drop n' s'
  end.

(** [s.split(c)] for a one-character separator. *)
Fixpoint split (sep : ascii) (s : string) : list string :=
  match s with
  | EmptyString => [EmptyString]
  | String c s' =>
      if Ascii.eqb c sep then EmptyString :: split sep s'
      else
        match split sep s' with
        | h :: t => String c h :: t
        | [] => [String c EmptyString]
        end
  end.

(** [sep.join(l)] *)
Fixpoint join (sep : string) (l : list string) : string :=
  match l with
  | [] => EmptyString
  | [x] => x
  | x :: l' => x ++ sep ++ join sep l'
  end.

(** [s.count(c)] for a one-character argument. *)
Fixpoint count (c : ascii) (s : string) : nat :=
  match s with
  | EmptyString => 0
  | String a s' => (if Ascii.eqb a c then 1 else 0) + count c s'
  end.

(** [c in s] for a one-character [c]. *)
Definition has_char (c : ascii) (s : string) : bool :=
  contains (String c EmptyString) s.

(** [s.lstrip()], [s.rstrip()] and [s.strip()] on whitespace. *)
Fixpoint lstrip_ws (s : string) : string :=
  match s with
  | EmptyString => EmptyString
  | String c s' => if isspace c then lstrip_ws s' else s
  end.

Fixpoint rstrip_ws (s : string) : string :=
  match s with
  | EmptyString => EmptyString
  | String a s' =>
      let r := rstrip_ws s' in
      if (String.eqb r EmptyString && isspace a)%bool
      then EmptyString else String a r
  end.

Definition strip (s : string) : string := rstrip_ws (lstrip_ws s).

(** [s.replace(old, new)]: every non-overlapping occurrence, left to
    right; [skip] counts the characters of the current occurrence still
    to drop.  With an empty [old], [new] goes before every character and
    at the end. *)
Fixpoint replace_from (old new : string) (skip : nat) (s : string) : string :=
  match skip with
  | S skip' =>
      match s with
      | EmptyString => EmptyString
      | String _ s' => replace_from old new skip' s'
      end
  | O =>
      match s with
      | EmptyString => EmptyString
      | String c s' =>
          if startswith old s
          then new ++ replace_from old new (String.length old - 1) s'
          else String c (replace_from old new 0 s')
      end
  end.

Fixpoint interleave (new s : string) : string :=
  match s with
  | EmptyString => new
  | String c s' => new ++ String c (interleave new s')
  end.

Definition replace (old new s : string) : string :=
  match old with
  | EmptyString => interleave new s
  | String _ _ => replace_from old new 0 s
  end.

(** [all(p(c) for c in s)] *)
Fixpoint all_chars (p : ascii -> bool) (s : string) : bool :=
  match s with
  | EmptyString => true
  | String c s' => p c && all_chars p s'
  end.

(** [c * n] *)
Fixpoint repeat_char (c : ascii) (n : nat) : string :=
  match n with
  | O => EmptyString
  | S n' => String c (repeat_char c n')
  end.

End PyStr.

(** ** The fragment of Python's [re] the tools use *)

Module Re.

Import PyStr.

(** Patterns.  Quantifiers are greedy and range over one-character
    classes, the only form the sources use; [Grp] is a capturing group,
    groups are numbered in the order they close (no group is nested or
    optional in the patterns below, so this is the order they open). *)
Inductive regex : Type :=
| Chr (p : ascii -> bool)
| Lit (l : string)
| Star (p : ascii -> bool)
| Plus (p : ascii -> bool)
| Rep (n : nat) (p : ascii -> bool)
| Opt (r : regex)
| Seq (r1 r2 : regex)
| Grp (r : regex)
| Bol
| Eol.

Declare Scope re_scope.
Delimit Scope re_scope with re.
Bind Scope re_scope with regex.
Infix ">>" := Seq (at level 61, right associativity) : re_scope.

(** Character classes of the patterns. *)
Definition one (a : ascii) : ascii -> bool := fun c => Ascii.eqb c a.
Definition dot : ascii -> bool := fun c => negb (is_code 10 c).
Definition cls_s : ascii -> bool := isspace.
Definition cls_d : ascii -> bool := between 48 57.
Definition cls_w : ascii -> bool := fun c => isalnum c || one "_" c.
Definition cls_HEX : ascii -> bool :=
  fun c => between 65 70 c || between 48 57 c.
Definition either (p q : ascii -> bool) : ascii -> bool :=
  fun c => p c || q c.

Section Matcher.

(** [ic] is the flag [re.IGNORECASE]; [total] the length of the subject. *)
Variable ic : bool.
Variable total : nat.
Context {R : Type}.

Definition test (p : ascii -> bool) (c : ascii) : bool :=
  if ic then p c || p (lower_char c) || p (upper_char c) else p c.

Definition K : Type := string -> list string -> option R.

Fixpoint star (p : ascii -> bool) (s : string) (caps : list string) (k : K)
  : option R :=
  match s with
  | String c s' =>
      if test p c then
        match star p s' caps k with
        | Some x => Some x
        | None => k s caps
        end
      else k s caps
  | EmptyString => k s caps
  end.

Fixpoint rep (n : nat) (p : ascii -> bool) (s : string) (caps : list string)
  (k : K) : option R :=
  match n with
  | O => k s caps
  | S n' =>
      match s with
      | String c s' => if test p c then rep n' p s' caps k else None
      | EmptyString => None
      end
  end.

Fixpoint lit (l : string) (s : string) (caps : list string) (k : K)
  : option R :=
  match l with
  | EmptyString => k s caps
  | String a l' =>
      match s with
      | String c s' => if test (one a) c then lit l' s' caps k else None
      | EmptyString => None
      end
  end.

(** Backtracking matcher in continuation-passing style: [run r s caps k]
    tries the ways [r] matches a prefix of [s] in Python's priority order
    and returns the first on which the continuation succeeds. *)
Fixpoint run (r : regex) (s : string) (caps : list string) (k : K)
  : option R :=
  match r with
  | Chr p =>
      match s with
      | String c s' => if test p c then k s' caps else None
      | EmptyString => None
      end
  | Lit l => lit l s caps k
  | Star p => star p s caps k
  | Plus p =>
      match s with
      | String c s' => if test p c then star p s' caps k else None
      | EmptyString => None
      end
  | Rep n p => rep n p s caps k
  | Opt r' =>
      match run r' s caps k with
      | Some x => Some x
      | None => k s caps
      end
  | Seq r1 r2 => run r1 s caps (fun s' caps' => run r2 s' caps' k)
  | Grp r' =>
      run r' s caps
        (fun s' caps' =>
           k s' (caps' ++ [substring 0 (String.length s - String.length s') s])%list)
  | Bol => if Nat.eqb (String.length s) total then k s caps else None
  | Eol =>
      match s with
      | EmptyString => k s caps
      | String c EmptyString => if is_code 10 c then k s caps else None
      | _ => None
      end
  end.

End Matcher.

(** A match: the text after it and the groups. *)
Definition found : Type := (string * list string)%type.

Definition at_pos (ic : bool) (total : nat) (r : regex) (s : string)
  : option found :=
  run ic total r s [] (fun s' caps => Some (s', caps)).

(** [re.match(r, s)]: a match at the start of [s]. *)
Definition re_match (ic : bool) (r : regex) (s : string) : option found :=
  at_pos ic (String.length s) r s.

Fixpoint search_from (ic : bool) (total : nat) (r : regex) (s : string)
  : option found :=
  match at_pos ic total r s with
  | Some m => Some m
  | None =>
      match s with
      | EmptyString => None
      | String _ s' => search_from ic total r s'
      end
  end.

(** [re.search(r, s)]: the leftmost match. *)
Definition re_search (ic : bool) (r : regex) (s : string) : option found :=
  search_from ic (String.length s) r s.

(** [re.sub(r, repl, s)] for a literal [repl]: every non-overlapping
    match, left to right, is replaced.  [skip] counts the characters of
    the current match still to drop.  No pattern passed to it here
    matches the empty string. *)
Fixpoint sub_from (ic : bool) (total : nat) (r : regex) (repl : string)
  (skip : nat) (s : string) : string :=
  match skip with
  | S skip' =>
      match s with
      | EmptyString => EmptyString
      | String _ s' => sub_from ic total r repl skip' s'
      end
  | O =>
      match at_pos ic total r s with
      | Some (rest, _) =>
          match String.length s - String.length rest, s with
          | S n, String _ s' => repl ++ sub_from ic total r repl n s'
          | _, String c s' => repl ++ String c (sub_from ic total r repl 0 s')
          | _, EmptyString => repl
          end
      | None =>
          match s with
          | EmptyString => EmptyString
          | String c s' => String c (sub_from ic total r repl 0 s')
          end
      end
  end.

Definition re_sub (ic : bool) (r : regex) (repl s : string) : string :=
  sub_from ic (String.length s) r repl 0 s.

(** [re.finditer(r, s)]: the non-overlapping matches, left to right, each
    with its start position; [skip] counts the characters of the current
    match still to pass.  No pattern passed to it here matches the empty
    string. *)
Fixpoint finditer_from (ic : bool) (total : nat) (r : regex)
  (skip pos : nat) (s : string) : list (nat * found) :=
  match skip with
  | S skip' =>
      match s with
      | EmptyString => []
      | String _ s' => finditer_from ic total r skip' (S pos) s'
      end
  | O =>
      match at_pos ic total r s with
      | Some m =>
          (pos, m)
          :: match String.length s - String.length (fst m), s with
             | S n, String _ s' => finditer_from ic total r n (S pos) s'
             | _, String _ s' => finditer_from ic total r 0 (S pos) s'
             | _, EmptyString => []
             end
      | None =>
          match s with
          | EmptyString => []
          | String _ s' => finditer_from ic total r 0 (S pos) s'
          end
      end
  end.

Definition finditer (ic : bool) (r : regex) (s : string)
  : list (nat * found) :=
  finditer_from ic (String.length s) r 0 0 s.

(** What a pattern can match: [denotes ic total r s s' caps] says that [r]
    matches the part of [s] before its suffix [s'] and closes the groups
    [caps] on the way. *)
Inductive denotes (ic : bool) (total : nat)
  : regex -> string -> string -> list string -> Prop :=
| den_chr p c s :
    test ic p c = true -> denotes ic total (Chr p) (String c s) s []
| den_lit_nil s : denotes ic total (Lit EmptyString) s s []
| den_lit_cons a l c s s' :
    test ic (one a) c = true ->
    denotes ic total (Lit l) s s' [] ->
    denotes ic total (Lit (String a l)) (String c s) s' []
| den_star_nil p s : denotes ic total (Star p) s s []
| den_star_cons p c s s' :
    test ic p c = true ->
    denotes ic total (Star p) s s' [] ->
    denotes ic total (Star p) (String c s) s' []
| den_plus p c s s' :
    test ic p c = true ->
    denotes ic total (Star p) s s' [] ->
    denotes ic total (Plus p) (String c s) s' []
| den_rep_nil p s : denotes ic total (Rep 0 p) s s []
| den_rep_cons n p c s s' :
    test ic p c = true ->
    denotes ic total (Rep n p) s s' [] ->
    denotes ic total (Rep (S n) p) (String c s) s' []
| den_opt_some r s s' caps :
    denotes ic total r s s' caps -> denotes ic total (Opt r) s s' caps
| den_opt_none r s : denotes ic total (Opt r) s s []
| den_seq r1 r2 s s1 s2 caps1 caps2 :
    denotes ic total r1 s s1 caps1 ->
    denotes ic total r2 s1 s2 caps2 ->
    denotes ic total (Seq r1 r2) s s2 (caps1 ++ caps2)%list
| den_grp r s s' caps :
    denotes ic total r s s' caps ->
    denotes ic total (Grp r) s s'
      (caps ++ [substring 0 (String.length s - String.length s') s])%list
| den_bol s : String.length s = total -> denotes ic total Bol s s []
| den_eol_end : denotes ic total Eol EmptyString EmptyString []
| den_eol_newline c :
    is_code 10 c = true ->
    denotes ic total Eol (String c EmptyString) (String c EmptyString) [].

(** A pattern without capturing group. *)
Fixpoint groupless (r : regex) : bool :=
  match r with
  | Opt r' => groupless r'
  | Seq r1 r2 => groupless r1 && groupless r2
  | Grp _ => false
  | _ => true
  end.

(** [[0-9A-Fa-f]], the class [[0-9A-F]] under [re.IGNORECASE]. *)
Definition hexdigit (c : ascii) : bool :=
  between 48 57 c || between 65 70 c || between 97 102 c.

End Re.

(** ** Python values and control *)

Module Py.

(** The exceptions of the modelled code: [None.group(1)] after a failed
    [re.search] raises [AttributeError]; [open] and [readlines] on a path
    that exists raise [UnicodeDecodeError] when the bytes are not UTF-8
    and an [OSError] (such as [IsADirectoryError] or [PermissionError])
    when the path cannot be opened as a file. *)
Inductive exn : Type := AttributeError | UnicodeDecodeError | OSError.

(** What a call does: it returns, it raises, or the model's recursion
    budget ran out (shown below never to happen). *)
Inductive outcome (A : Type) : Type :=
| Return (a : A)
| Raises (e : exn)
| OutOfFuel.

Arguments Return {A} a.
Arguments Raises {A} e.
Arguments OutOfFuel {A}.

Definition bind {A B : Type} (m : outcome A) (f : A -> outcome B)
  : outcome B :=
  match m with
  | Return a => f a
  | Raises e => Raises e
  | OutOfFuel => OutOfFuel
  end.

(** A [dict] with [str] keys, in insertion order. *)
Definition dict (V : Type) : Type := list (string * V).

Fixpoint get {V : Type} (d : dict V) (k : string) : option V :=
  match d with
  | [] => None
  | (k', v) :: d' => if String.eqb k' k then Some v else get d' k
  end.

(** [k in d] *)
Definition has_key {V : Type} (d : dict V) (k : string) : bool :=
  match get d k with
  | Some _ => true
  | None => false
  end.

(** [del d[k]] *)
Fixpoint del {V : Type} (d : dict V) (k : string) : dict V :=
  match d with
  | [] => []
  | (k', v) :: d' => if String.eqb k' k then del d' k else (k', v) :: del d' k
  end.

(** [x in s] for a set of strings. *)
Definition mem (x : string) (s : list string) : bool :=
  existsb (String.eqb x) s.

(** [a <= b] on sets. *)
Definition subset (a b : list string) : bool :=
  forallb (fun x => mem x b) a.

(** Truthiness of an [Optional[str]]. *)
Definition truthy_opt (o : option string) : bool :=
  match o with
  | Some s => PyStr.truthy s
  | None => false
  end.

(** [m.group(n)] for [n >= 1]. *)
Definition group (n : nat) (m : Re.found) : string :=
  nth (n - 1) (snd m) EmptyString.

Definition nl : string := String (ascii_of_nat 10) EmptyString.

(** [l.append(x)] and [l.extend(l')] *)
Definition append {A : Type} (l : list A) (x : A) : list A := (l ++ [x])%list.
Definition extend {A : Type} (l l' : list A) : list A := (l ++ l')%list.

(** [d[k] = v]: an existing key keeps its place. *)
Fixpoint set_item {V : Type} (d : dict V) (k : string) (v : V) : dict V :=
  match d with
  | [] => [(k, v)]
  | (k', v') :: d' =>
      if String.eqb k' k then (k', v) :: d' else (k', v') :: set_item d' k v
  end.

(** [s.add(x)] on a set of strings. *)
Definition set_add (x : string) (s : list string) : list string :=
  if mem x s then s else append s x.

End Py.

Notation "x <- m ;; f" := (Py.bind m (fun x => f))
  (at level 100, m at next level, right associativity, only parsing).

(** ** [Tools/dump_converter.py] *)

Module DumpConverter.

Import PyStr Re Py.

(** The attributes [__init__] sets and the methods read. *)
Record HPPConverter : Type := {
  type_mappings : dict string;
  ignored_types : list string
}.

Definition init : HPPConverter := {|
  type_mappings := [
    ("bool", "bool");
    ("float", "float");
    ("int32", "int32_t");
    ("uint8", "uint8_t");
    ("uint16", "uint16_t");
    ("uint32", "uint32_t");
    ("uint64", "uint64_t");
    ("int8", "int8_t");
    ("int16", "int16_t");
    ("int64", "int64_t");
    ("FString", "RC::Unreal::FString");
    ("FName", "RC::Unreal::FName");
    ("FText", "RC::Unreal::FText");
    ("FVector", "RC::Unreal::FVector");
    ("FRotator", "RC::Unreal::FRotator");
    ("FTransform", "RC::Unreal::FTransform");
    ("FLinearColor", "RC::Unreal::FLinearColor");
    ("UStaticMesh*", "RC::Unreal::UStaticMesh*");
    ("AActor*", "RC::Unreal::AActor*");
    ("UObject*", "RC::Unreal::UObject*")
  ];
  ignored_types := [
    "FPointerToUberGraphFrame";
    "TextureFilter";
    "ETimelineDirection";
    "ECollisionChannel";
    "FConnectionCallbackProxyOnSuccess";
    "FCheckGeoTrackingAvailabilityAsyncTaskBlueprintProxyOnSuccess";
    "TSoftClassPtr";
    "TSoftObjectPtr";
    "FJSONParserAsyncObjectToStringOnSuccess";
    "FBox";
    "FVector4";
    "FGuid"
  ]
|}.

(** [_\d+_[A-F0-9]{32}$] *)
Definition guid_suffix_re : regex :=
  (Lit "_" >> Plus cls_d >> Lit "_" >> Rep 32 cls_HEX >> Eol)%re.

(** [_\d+$] *)
Definition numeric_suffix_re : regex := (Lit "_" >> Plus cls_d >> Eol)%re.

Definition clean_name (name : string) : string :=
  let name := re_sub false guid_suffix_re "" name in
  let name := re_sub false numeric_suffix_re "" name in
  name.

Definition core_prefixes : list string :=
  ["UObject"; "AActor"; "UActorComponent"].

Definition head_isdigit (name : string) : bool :=
  match head name with
  | Some c => isdigit c
  | None => false
  end.

Definition clean_class_name (name : string) : string :=
  if negb (truthy name) then name
  else if startswith_any core_prefixes name then name
  else
    let name := if head_isdigit name then "C" ++ name else name in
    if startswith "A" name && endswith "_C" name then slice 1 (-2) name
    else if startswith "U" name && endswith "_C" name then slice 1 (-2) name
    else name.

(** [^class\s+] *)
Definition class_prefix_re : regex := (Bol >> Lit "class" >> Plus cls_s)%re.

(** [TArray<(.+)>], [TSubclassOf<(.+)>], [TEnumAsByte<(.+)>] *)
Definition generic_re (wrapper : string) : regex :=
  (Lit (wrapper ++ "<") >> Grp (Plus dot) >> Lit ">")%re.

(** [re.search(...).group(1)], which raises when nothing matches. *)
Definition search_group1 (r : regex) (s : string) : outcome string :=
  match re_search false r s with
  | Some m => Return (group 1 m)
  | None => Raises AttributeError
  end.

(** One-argument wrappers: the inner conversion decides. *)
Definition rewrap (wrapper : string) (converted_inner : option string)
  : option string :=
  if truthy_opt converted_inner then
    match converted_inner with
    | Some c => Some ("RC::Unreal::" ++ wrapper ++ "<" ++ c ++ ">")
    | None => None
    end
  else None.

(** [any(ignored in ue_type for ignored in self.ignored_types)] *)
Definition is_ignored (self : HPPConverter) (ue_type : string) : bool :=
  existsb (fun ignored => contains ignored ue_type) (ignored_types self).

(** The body of [convert_type]; [convert_type] stands for the recursive
    calls [self.convert_type(inner_type)]. *)
Definition convert_type_body (self : HPPConverter)
  (convert_type : string -> outcome (option string)) (ue_type : string)
  : outcome (option string) :=
  if is_ignored self ue_type then Return None
  else
    let ue_type := re_sub false class_prefix_re "" ue_type in
    if startswith "TArray<" ue_type then
      inner_type <- search_group1 (generic_re "TArray") ue_type ;;
      converted_inner <- convert_type inner_type ;;
      Return (rewrap "TArray" converted_inner)
    else if startswith "TSubclassOf<" ue_type then
      inner_type <- search_group1 (generic_re "TSubclassOf") ue_type ;;
      converted_inner <- convert_type inner_type ;;
      Return (rewrap "TSubclassOf" converted_inner)
    else if startswith_any core_prefixes ue_type then
      Return (Some ue_type)
    else
      match get (type_mappings self) ue_type with
      | Some mapped => Return (Some mapped)
      | None =>
          let base_type := rstrip "*" ue_type in
          match get (type_mappings self) base_type with
          | Some mapped => Return (Some (mapped ++ "*"))
          | None =>
              if startswith "TEnumAsByte<" ue_type then
                enum_type <-
                  search_group1 (generic_re "TEnumAsByte") ue_type ;;
                Return (Some enum_type)
              else
                let cleaned_type := clean_class_name ue_type in
                if negb (String.eqb cleaned_type ue_type)
                then Return (Some cleaned_type)
                else Return (Some ue_type)
          end
      end.

(** The recursion, with a budget on its depth. *)
Fixpoint convert_type_fuel (self : HPPConverter) (fuel : nat)
  (ue_type : string) : outcome (option string) :=
  match fuel with
  | O => OutOfFuel
  | S fuel' => convert_type_body self (convert_type_fuel self fuel') ue_type
  end.

(** [convert_type]: each recursive call is on a strictly shorter token,
    so the length of the token bounds the depth. *)
Definition convert_type (self : HPPConverter) (ue_type : string)
  : outcome (option string) :=
  convert_type_fuel self (S (String.length ue_type)) ue_type.

(** [[\w<>*:]] and [[*&]] *)
Definition cls_type : ascii -> bool :=
  fun c => cls_w c || one "<" c || one ">" c || one "*" c || one ":" c.
Definition cls_ptr : ascii -> bool := either (one "*") (one "&").

(** [\s*([\w<>*:]+(?:\s*[*&])?)\s+(\w+(?:_\d+)?(?:_[A-F0-9]{32})?);?\s*//\s*(0x[0-9A-F]+)] *)
Definition struct_field_re : regex :=
  (Star cls_s >>
   Grp (Plus cls_type >> Opt (Star cls_s >> Chr cls_ptr)) >>
   Plus cls_s >>
   Grp (Plus cls_w >> Opt (Lit "_" >> Plus cls_d) >>
        Opt (Lit "_" >> Rep 32 cls_HEX)) >>
   Opt (Lit ";") >> Star cls_s >> Lit "//" >> Star cls_s >>
   Grp (Lit "0x" >> Plus cls_HEX))%re.

(** [\s*([\w<>*:]+(?:\s*[*&])?)\s+(\w+);?\s*//\s*(0x[0-9A-F]+)] *)
Definition field_re : regex :=
  (Star cls_s >>
   Grp (Plus cls_type >> Opt (Star cls_s >> Chr cls_ptr)) >>
   Plus cls_s >>
   Grp (Plus cls_w) >>
   Opt (Lit ";") >> Star cls_s >> Lit "//" >> Star cls_s >>
   Grp (Lit "0x" >> Plus cls_HEX))%re.

(** The rendering [f"    FIELD({offset}, {type}, {name});\n"]. *)
Definition FIELD (offset type name : string) : string :=
  "    FIELD(" ++ offset ++ ", " ++ type ++ ", " ++ name ++ ");" ++ nl.

Definition convert_struct_field (self : HPPConverter) (line : string)
  : outcome (option string) :=
  match re_match true struct_field_re line with
  | None => Return None
  | Some m =>
      let type_name := group 1 m in
      let var_name := group 2 m in
      let offset := group 3 m in
      let clean_var_name := clean_name var_name in
      converted_type <- convert_type self type_name ;;
      match converted_type with
      | Some t =>
          if truthy t then Return (Some (FIELD offset t clean_var_name))
          else Return None
      | None => Return None
      end
  end.

Definition convert_line_to_field (self : HPPConverter) (line : string)
  : outcome (option string) :=
  match re_match true field_re line with
  | None => Return None
  | Some m =>
      let type_name := group 1 m in
      let var_name := group 2 m in
      let offset := group 3 m in
      converted_type <- convert_type self type_name ;;
      match converted_type with
      | Some t =>
          if truthy t then Return (Some (FIELD offset t var_name))
          else Return None
      | None => Return None
      end
  end.

(** What [open(path, 'r', encoding='utf-8')] followed by [readlines()]
    does on a path that exists: it gives the lines, or it raises. *)
Inductive reading : Type :=
  | Lines (lines : list string)
  | Unreadable (e : exn).

(** The files under the input directory: [fs dir name] is [None] when
    [Path(dir) / name] does not exist, and what reading it does when it
    exists. *)
Definition filesystem : Type := string -> string -> option reading.

(** The [for line in lines] loop of [process_struct_file]. *)
Fixpoint struct_scan (self : HPPConverter) (struct_name : string)
  (lines : list string) (in_struct : bool) (struct_lines : list string)
  : outcome (list string) :=
  match lines with
  | [] => Return struct_lines
  | line :: rest =>
      if contains ("struct " ++ struct_name) line then
        struct_scan self struct_name rest true
          (append struct_lines ("struct " ++ struct_name ++ " {" ++ nl))
      else if in_struct then
        if contains "};" line then
          Return (append struct_lines ("};" ++ nl ++ nl))
        else if contains "//" line && contains "0x" line then
          field_line <- convert_struct_field self line ;;
          match field_line with
          | Some f =>
              if truthy f
              then struct_scan self struct_name rest in_struct
                     (append struct_lines f)
              else struct_scan self struct_name rest in_struct struct_lines
          | None => struct_scan self struct_name rest in_struct struct_lines
          end
        else struct_scan self struct_name rest in_struct struct_lines
      else struct_scan self struct_name rest in_struct struct_lines
  end.

Definition process_struct_file (self : HPPConverter) (fs : filesystem)
  (struct_name input_dir : string) : outcome (list string) :=
  match fs input_dir (lower struct_name ++ ".hpp") with
  | None => Return []
  | Some (Unreadable e) => Raises e
  | Some (Lines lines) => struct_scan self struct_name lines false []
  end.

(** The loop of [convert_file] over [sorted(found_structs)]. *)
Fixpoint convert_file_structs (self : HPPConverter) (fs : filesystem)
  (input_dir : string) (found_structs : list string)
  (output_lines : list string) : outcome (list string) :=
  match found_structs with
  | [] => Return output_lines
  | struct_name :: rest =>
      struct_lines <- process_struct_file self fs struct_name input_dir ;;
      match struct_lines with
      | [] => convert_file_structs self fs input_dir rest output_lines
      | _ :: _ =>
          convert_file_structs self fs input_dir rest
            (extend output_lines struct_lines)
      end
  end.

(** The converter with some keys of its mapping table removed. *)
Definition without_keys (keys : list string) (self : HPPConverter)
  : HPPConverter :=
  {| type_mappings :=
       filter (fun kv => negb (mem (fst kv) keys)) (type_mappings self);
     ignored_types := ignored_types self |}.

(** The first conversion is decided by a wrapper, by an engine-core
    prefix, by the mapping table or by the pointer-to-mapped rule (the
    arms of [convert_type] before the byte-enum unwrap and the class-name
    cleanup). *)
Definition decided_by_table (self : HPPConverter) (ue_type : string) : bool :=
  let ue_type := re_sub false class_prefix_re "" ue_type in
  startswith "TArray<" ue_type
  || startswith "TSubclassOf<" ue_type
  || startswith_any core_prefixes ue_type
  || has_key (type_mappings self) ue_type
  || has_key (type_mappings self) (rstrip "*" ue_type).

(** A directory whose only struct file defines another struct. *)
Definition stray_fs : filesystem :=
  fun _ name =>
    if String.eqb name "fstruct_vec.hpp"
    then Some (Lines ["struct Fstruct_Other {" ++ nl; "};" ++ nl])
    else None.

(** A directory whose only struct file exists but is not UTF-8 text (a
    Latin-1 dump holding the byte 0xE9, say): reading it raises. *)
Definition latin1_fs : filesystem :=
  fun _ name =>
    if String.eqb name "fstruct_vec.hpp"
    then Some (Unreadable UnicodeDecodeError)
    else None.

(** The example line of the specification. *)
Definition target_actor_line : string :=
  "AActor* TargetActor_2_1A2B3C4D5E6F7890ABCDEF1234567890; // 0x0120".

(** *** [convert_file] *)

(** [f.readlines()] on the text of a file: the lines with their line
    ends. *)
Fixpoint readlines (s : string) : list string :=
  match s with
  | EmptyString => []
  | String c s' =>
      if is_code 10 c then String c EmptyString :: readlines s'
      else
        match readlines s' with
        | h :: t => String c h :: t
        | [] => [String c EmptyString]
        end
  end.

(** [sorted(s)] for a set of strings built from the list of its
    elements. *)
Fixpoint insert_name (x : string) (l : list string) : list string :=
  match l with
  | [] => [x]
  | y :: l' =>
      if ltb y x then y :: insert_name x l'
      else if String.eqb y x then l
      else x :: l
  end.

Definition sorted_set (l : list string) : list string :=
  fold_right insert_name [] l.

(** [struct\s+(Fstruct_\w+)] *)
Definition struct_ref_re : regex :=
  (Lit "struct" >> Plus cls_s >> Grp (Lit "Fstruct_" >> Plus cls_w))%re.

(** [class\s+(\w+)\s*:] *)
Definition class_line_re : regex :=
  (Lit "class" >> Plus cls_s >> Grp (Plus cls_w) >> Star cls_s >> Lit ":")%re.

(** [:\s*(?:public\s+)?(\w+)] *)
Definition parent_re : regex :=
  (Lit ":" >> Star cls_s >> Opt (Lit "public" >> Plus cls_s) >>
   Grp (Plus cls_w))%re.

(** The double quote. *)
Definition quote : string := String (ascii_of_nat 34) EmptyString.

Definition preamble : list string := [
  "#pragma once" ++ nl;
  "#include <Unreal/UObject.hpp>" ++ nl;
  "#include <Unreal/AActor.hpp>" ++ nl;
  "#include <Unreal/TArray.hpp>" ++ nl;
  "#include <Unreal/FString.hpp>" ++ nl;
  "#include " ++ quote ++ "StructUtil.hpp" ++ quote ++ nl ++ nl;
  "namespace game {" ++ nl ++ nl
].

Definition class_closer : string := "};" ++ nl ++ nl.

Definition namespace_closer : string := "} // namespace game" ++ nl.

(** The line [f"class {class_name}{parent_class} {{\npublic:\n"]. *)
Definition class_header (class_name parent_class : string) : string :=
  "class " ++ class_name ++ parent_class ++ " {" ++ nl ++ "public:" ++ nl.

(** The part of the loop body that handles a class line. *)
Definition open_class (line : string) (class_match : found)
  (current_class : option string) (output_lines : list string)
  : option string * list string :=
  let output_lines :=
    if truthy_opt current_class then append output_lines class_closer
    else output_lines in
  let class_name := clean_class_name (group 1 class_match) in
  let parent_class :=
    match re_search false parent_re line with
    | Some parent_match => clean_class_name (group 1 parent_match)
    | None => EmptyString
    end in
  let parent_class :=
    if truthy parent_class then " : public " ++ parent_class
    else EmptyString in
  (Some class_name,
   append output_lines (class_header class_name parent_class)).

(** The loop of [convert_file] over the lines of the main file. *)
Fixpoint convert_lines (self : HPPConverter) (lines : list string)
  (current_class : option string) (output_lines : list string)
  : outcome (option string * list string) :=
  match lines with
  | [] => Return (current_class, output_lines)
  | line :: rest =>
      match re_match false class_line_re line with
      | Some class_match =>
          let st := open_class line class_match current_class output_lines in
          convert_lines self rest (fst st) (snd st)
      | None =>
          if contains "//" line && contains "0x" line then
            field_line <- convert_line_to_field self line ;;
            if truthy_opt field_line then
              match field_line with
              | Some f => convert_lines self rest current_class
                            (append output_lines f)
              | None => convert_lines self rest current_class output_lines
              end
            else convert_lines self rest current_class output_lines
          else convert_lines self rest current_class output_lines
      end
  end.

(** [convert_file], from the text of the input file on. *)
Definition convert_file (self : HPPConverter) (fs : filesystem)
  (content input_dir : string) : outcome (list string) :=
  let output_lines := preamble in
  let found_structs :=
    sorted_set
      (map (fun m => group 1 (snd m)) (finditer false struct_ref_re content)) in
  output_lines <-
    convert_file_structs self fs input_dir found_structs output_lines ;;
  st <- convert_lines self (readlines content) None output_lines ;;
  let output_lines :=
    if truthy_opt (fst st) then append (snd st) class_closer else snd st in
  Return (append output_lines namespace_closer).

(** A dump of one class that refers to a struct kept in its own file. *)
Definition pawn_dump : string :=
  "class APawn_C : public AActor" ++ nl ++
  "{" ++ nl ++
  "    struct Fstruct_Stats Stats; // 0x0100" ++ nl ++
  "    float Speed_2; // 0x0110" ++ nl ++
  "    FGuid Id; // 0x0118" ++ nl ++
  "};" ++ nl.

Definition pawn_fs : filesystem :=
  fun _ name =>
    if String.eqb name "fstruct_stats.hpp"
    then Some (Lines ["struct Fstruct_Stats" ++ nl; "{" ++ nl;
                      "    float Health_3; // 0x0000" ++ nl; "};" ++ nl])
    else None.

(** The opening line [f"struct {struct_name} {{\n"] of a struct block. *)
Definition struct_opening (struct_name : string) : string :=
  "struct " ++ struct_name ++ " {" ++ nl.

(** The header generated from [pawn_dump]. *)
Definition pawn_header : list string :=
  Eval vm_compute in
    match convert_file init pawn_fs pawn_dump "dump" with
    | Return output_lines => output_lines
    | _ => []
    end.

End DumpConverter.

(** ** [Tools/consolidator.py] *)

Module Consolidator.

Import PyStr Py.

(** The pools [process_file] fills and [sort_declarations] reads. *)
Record HeaderConsolidator : Type := {
  structs : dict string;
  classes : dict string;
  enums : dict string;
  dependencies : dict (list string)
}.

Definition module_categories : dict (list string) := [
  ("Gameplay", ["Character"; "Player"; "Game"; "Save"; "Inventory"]);
  ("UI", ["HUD"; "Menu"; "Widget"]);
  ("Props", ["Item"; "Prop"; "Container"]);
  ("Systems", ["Day"; "Night"; "Weather"; "Power"]);
  ("Audio", ["Sound"; "Music"; "Voice"]);
  ("Physics", ["Physics"; "Collision"])
].

Fixpoint first_category (categories : dict (list string)) (content : string)
  : string :=
  match categories with
  | [] => "Game"
  | (category, keywords) :: rest =>
      if existsb (fun keyword => contains (lower keyword) (lower content))
           keywords
      then category
      else first_category rest content
  end.

Definition determine_module (content : string) : string :=
  first_category module_categories content.

(** [<] on [(name, content)] tuples. *)
Definition item_ltb (a b : string * string) : bool :=
  ltb (fst a) (fst b)
  || (String.eqb (fst a) (fst b) && ltb (snd a) (snd b)).

Fixpoint insert (x : string * string) (l : list (string * string))
  : list (string * string) :=
  match l with
  | [] => [x]
  | y :: l' => if item_ltb y x then y :: insert x l' else x :: l
  end.

(** [sorted(d.items())] *)
Fixpoint sorted (l : list (string * string)) : list (string * string) :=
  match l with
  | [] => []
  | x :: l' => insert x (sorted l')
  end.

(** [ordered_content[k].append(x)] on a [defaultdict(list)] *)
Fixpoint append_to (d : dict (list string)) (k x : string)
  : dict (list string) :=
  match d with
  | [] => [(k, [x])]
  | (k', v) :: d' =>
      if String.eqb k' k then (k', append v x) :: d'
      else (k', v) :: append_to d' k x
  end.

(** Which arm of the while loop placed a class. *)
Inductive branch : Type := Ready | Deadlock.

(** One call of [ordered_content[module].append(...)] on a class. *)
Record emission : Type := {
  em_pass : nat;
  em_branch : branch;
  em_name : string;
  em_module : string;
  em_content : string
}.

(** The variables of the class loop: [pending] is [self.classes].
    [passes] and [log] are bookkeeping of the model, absent from the
    source: the iterations of the while loop begun so far and the
    appends made, oldest first. *)
Record emitter : Type := {
  pending : dict string;
  ordered_content : dict (list string);
  processed : list string;
  passes : nat;
  log : list emission
}.

(** The [for ... in self.dependencies.items()] scan up to its [break]:
    the first class still pending whose dependencies are all processed;
    [None] is the [else] arm. *)
Fixpoint first_ready (items : dict (list string)) (classes : dict string)
  (processed : list string) : option (string * string) :=
  match items with
  | [] => None
  | (class_name, deps) :: rest =>
      match get classes class_name with
      | None => first_ready rest classes processed
      | Some content =>
          if subset deps processed then Some (class_name, content)
          else first_ready rest classes processed
      end
  end.

(** The body of [if deps <= processed:]. *)
Definition emit_ready (class_name content : string) (st : emitter)
  : emitter :=
  let module := determine_module content in
  {| pending := del (pending st) class_name;
     ordered_content := append_to (ordered_content st) module content;
     processed := class_name :: processed st;
     passes := S (passes st);
     log := append (log st)
              {| em_pass := passes st; em_branch := Ready;
                 em_name := class_name; em_module := module;
                 em_content := content |} |}.

(** What the [else] arm records for one pending item. *)
Definition stuck_emission (pass : nat) (item : string * string) : emission :=
  {| em_pass := pass; em_branch := Deadlock; em_name := fst item;
     em_module := determine_module (snd item); em_content := snd item |}.

(** One iteration of the [else] arm's loop. *)
Definition emit_stuck (pass : nat) (st : emitter) (item : string * string)
  : emitter :=
  let module := determine_module (snd item) in
  {| pending := pending st;
     ordered_content := append_to (ordered_content st) module (snd item);
     processed := processed st;
     passes := passes st;
     log := append (log st) (stuck_emission pass item) |}.

(** The [else] arm: every class left, in sorted order. *)
Definition flush (st : emitter) : emitter :=
  let st' := fold_left (emit_stuck (passes st)) (sorted (pending st)) st in
  {| pending := pending st';
     ordered_content := ordered_content st';
     processed := processed st';
     passes := S (passes st);
     log := log st' |}.

(** [while self.classes:] *)
Fixpoint schedule (deps : dict (list string)) (fuel : nat) (st : emitter)
  : outcome emitter :=
  match pending st with
  | [] => Return st
  | _ :: _ =>
      match fuel with
      | O => OutOfFuel
      | S fuel' =>
          match first_ready deps (pending st) (processed st) with
          | Some (class_name, content) =>
              schedule deps fuel' (emit_ready class_name content st)
          | None => Return (flush st)
          end
      end
  end.

(** The two loops before the classes: enums, then structs. *)
Definition add_all (group : string) (d : dict string)
  (ordered : dict (list string)) : dict (list string) :=
  fold_left (fun oc item => append_to oc group (snd item)) (sorted d) ordered.

Definition start (self : HeaderConsolidator) : emitter :=
  {| pending := classes self;
     ordered_content :=
       add_all "Structs" (structs self) (add_all "Enums" (enums self) []);
     processed := [];
     passes := 0;
     log := [] |}.

(** The run of [sort_declarations] with its final loop state; every
    pass but the last removes a class, so the size of the pool bounds
    the passes. *)
Definition sort_run (self : HeaderConsolidator) : outcome emitter :=
  schedule (dependencies self) (List.length (classes self)) (start self).

Definition sort_declarations (self : HeaderConsolidator)
  : outcome (dict (list string)) :=
  st <- sort_run self ;; Return (ordered_content st).

(** Every body held by the groups of an [ordered_content]. *)
Definition all_bodies (oc : dict (list string)) : list string :=
  List.concat (map snd oc).


(** An emission made by the ready arm. *)
Definition ready_in (st : emitter) (e : emission) : Prop :=
  In e (log st) /\ em_branch e = Ready.

(** What the class loop maintains between two passes. *)
Record scheduling (deps : dict (list string)) (st : emitter) : Prop := {
  sch_processed :
    forall e, ready_in st e -> In (em_name e) (processed st);
  sch_logged :
    forall n, In n (processed st) ->
    exists e, ready_in st e /\ em_name e = n;
  sch_gone :
    forall n, In n (processed st) -> ~ In n (map fst (pending st));
  sch_before :
    forall e ds b, ready_in st e -> In (em_name e, ds) deps -> In b ds ->
    exists e', ready_in st e' /\ em_name e' = b /\ em_pass e' < em_pass e;
  sch_unique :
    forall e1 e2, ready_in st e1 -> ready_in st e2 ->
    em_name e1 = em_name e2 -> em_pass e1 = em_pass e2;
  sch_pass :
    forall e, ready_in st e -> em_pass e < passes st
}.

(** A pool with a cycle ([A] and [B]), a dangling name ([Missing]) and a
    chain ([D] after [C]). *)
Definition cyclic_pool : HeaderConsolidator := {|
  structs := [("Fstruct_b", "struct Fstruct_b { }");
              ("Fstruct_a", "struct Fstruct_a { }")];
  classes := [("A", "class A : public B { Menu }");
              ("B", "class B : public A { }");
              ("D", "class D : public C { Sound }");
              ("C", "class C { }");
              ("E", "class E : public Missing { }")];
  enums := [("EKind", "enum EKind { }")];
  dependencies := [("A", ["B"]); ("B", ["A"]); ("D", ["C"]); ("C", []);
                   ("E", ["Missing"])]
|}.

(** The final loop state on [cyclic_pool]. *)
Definition cyclic_run : emitter :=
  Eval vm_compute in
    match sort_run cyclic_pool with
    | Return st => st
    | _ => start cyclic_pool
    end.

Definition emission_C : emission :=
  {| em_pass := 0; em_branch := Ready; em_name := "C";
     em_module := "Game"; em_content := "class C { }" |}.

Definition emission_D : emission :=
  {| em_pass := 1; em_branch := Ready; em_name := "D";
     em_module := "Audio"; em_content := "class D : public C { Sound }" |}.

Definition emission_A : emission :=
  {| em_pass := 2; em_branch := Deadlock; em_name := "A";
     em_module := "UI"; em_content := "class A : public B { Menu }" |}.

Definition emission_E : emission :=
  {| em_pass := 2; em_branch := Deadlock; em_name := "E";
     em_module := "Game"; em_content := "class E : public Missing { }" |}.

(** *** Scanning the input files *)

Definition engine_modules : list string := [
  "Engine"; "CoreUObject"; "UMG"; "Slate"; "SlateCore";
  "InputCore"; "ControlRig"; "Niagara"; "NavigationSystem";
  "AIModule"; "GameplayTags"; "PhysicsCore"; "AnimGraphRuntime";
  "MovieScene"; "LevelSequence"; "GameplayTasks"; "AudioMixer";
  "Paper2D"; "CinematicCamera"; "AssetRegistry"; "AugmentedReality";
  "MRMesh"; "GeometryCollectionEngine"; "ChaosSolverEngine";
  "DatasmithContent"; "DatasmithCore"; "GeometryCollectionSimulationCore"
].

(** [should_skip_file], from [base_name = Path(filename).stem] on. *)
Definition should_skip_file (base_name : string) : bool :=
  if existsb (fun module => contains module base_name) engine_modules
  then true
  else if String.eqb base_name "Engine" || endswith "_enums" base_name
  then true
  else false.

(** [clean_identifier], the helper local to [process_file]. *)
Definition clean_identifier (name : string) : string :=
  if negb (truthy name) then name
  else
    match head name with
    | Some c => if isdigit c then "C" ++ name else name
    | None => name
    end.

(** The loop of [extract_block] over the lines. *)
Fixpoint block_scan (lines : list string) (brace_count : Z)
  (found_start : bool) (block_lines : list string) : option string :=
  match lines with
  | [] => None
  | line :: rest =>
      let opens := has_char "{" line in
      let found_start := found_start || opens in
      let brace_count :=
        if opens then (brace_count + Z.of_nat (count "{" line))%Z
        else brace_count in
      let brace_count :=
        if has_char "}" line
        then (brace_count - Z.of_nat (count "}" line))%Z
        else brace_count in
      let block_lines :=
        if found_start then append block_lines line else block_lines in
      if found_start && (brace_count =? 0)%Z
      then Some (join nl block_lines)
      else block_scan rest brace_count found_start block_lines
  end.

Definition extract_block (content : string) (start_pos : nat)
  : option string :=
  block_scan (split (ascii_of_nat 10) (drop start_pos content)) 0 false [].

(** An emission made by the [else] arm. *)
Definition flushed (e : emission) : bool :=
  match em_branch e with
  | Deadlock => true
  | Ready => false
  end.

(** [a <= b] on [(name, content)] tuples and on names. *)
Definition item_le (a b : string * string) : Prop := item_ltb b a = false.
Definition name_le (a b : string) : Prop := ltb b a = false.

(** *** [process_file] and [extract_dependencies] *)

Import Re.

(** [class\s+(\w+)(?:\s*:\s*public\s+(\w+))?]; the second group belongs to
    the optional part, so a match has one group or two. *)
Definition class_pattern : regex :=
  (Lit "class" >> Plus cls_s >> Grp (Plus cls_w) >>
   Opt (Star cls_s >> Lit ":" >> Star cls_s >> Lit "public" >> Plus cls_s >>
        Grp (Plus cls_w)))%re.

(** [struct\s+(\w+)] *)
Definition struct_pattern : regex :=
  (Lit "struct" >> Plus cls_s >> Grp (Plus cls_w))%re.

(** [enum\s+(?:class\s+)?(\w+)] *)
Definition enum_pattern : regex :=
  (Lit "enum" >> Plus cls_s >> Opt (Lit "class" >> Plus cls_s) >>
   Grp (Plus cls_w))%re.

(** [\s*FIELD\((0x[0-9A-F]+),\s*([^,]+),\s*(\w+)\);] *)
Definition field_pattern : regex :=
  (Star cls_s >> Lit "FIELD(" >> Grp (Lit "0x" >> Plus cls_HEX) >>
   Lit "," >> Star cls_s >> Grp (Plus (fun c => negb (one "," c))) >>
   Lit "," >> Star cls_s >> Grp (Plus cls_w) >> Lit ");")%re.

(** [<.*>] *)
Definition template_re : regex := (Lit "<" >> Star dot >> Lit ">")%re.

Definition primitive_types : list string :=
  ["bool"; "float"; "int32_t"; "uint32_t"].

(** The first loop of [extract_dependencies]: parent classes. *)
Definition add_parent (deps : list string) (m : nat * found) : list string :=
  match snd (snd m) with
  | [_; parent] => if truthy parent then set_add parent deps else deps
  | _ => deps
  end.

(** The second loop: field types. *)
Definition add_field_type (deps : list string) (m : nat * found)
  : list string :=
  let type_name := strip (group 2 (snd m)) in
  let type_name := replace "RC::Unreal::" "" type_name in
  let type_name := re_sub false template_re "" type_name in
  let type_name := rstrip "*" type_name in
  if mem type_name primitive_types then deps else set_add type_name deps.

Definition extract_dependencies (content : string) : list string :=
  let deps := fold_left add_parent (finditer false class_pattern content) [] in
  fold_left add_field_type (finditer false field_pattern content) deps.

(** The body of the loop over the matches of [class_pattern]. *)
Definition record_class (content : string) (self : HeaderConsolidator)
  (m : nat * found) : HeaderConsolidator :=
  let class_name := clean_identifier (group 1 (snd m)) in
  match extract_block content (fst m) with
  | Some class_content =>
      if truthy class_content then
        let class_content :=
          replace (group 1 (snd m)) class_name class_content in
        {| structs := structs self;
           classes := set_item (classes self) class_name class_content;
           enums := enums self;
           dependencies :=
             set_item (dependencies self) class_name
               (extract_dependencies class_content) |}
      else self
  | None => self
  end.

Definition record_struct (content : string) (self : HeaderConsolidator)
  (m : nat * found) : HeaderConsolidator :=
  let struct_name := group 1 (snd m) in
  if startswith "Fstruct_" struct_name then
    match extract_block content (fst m) with
    | Some struct_content =>
        if truthy struct_content then
          {| structs := set_item (structs self) struct_name struct_content;
             classes := classes self;
             enums := enums self;
             dependencies := dependencies self |}
        else self
    | None => self
    end
  else self.

Definition record_enum (content : string) (self : HeaderConsolidator)
  (m : nat * found) : HeaderConsolidator :=
  let enum_name := group 1 (snd m) in
  match extract_block content (fst m) with
  | Some enum_content =>
      if truthy enum_content then
        {| structs := structs self;
           classes := classes self;
           enums := set_item (enums self) enum_name enum_content;
           dependencies := dependencies self |}
      else self
  | None => self
  end.

(** [process_file], from the text read from the file on: the pools after
    the call and the value returned. *)
Definition process_file (self : HeaderConsolidator) (content : string)
  : HeaderConsolidator * option string :=
  if existsb (fun module => contains module content) engine_modules
  then (self, None)
  else
    let self :=
      fold_left (record_class content) (finditer false class_pattern content)
        self in
    let self :=
      fold_left (record_struct content)
        (finditer false struct_pattern content) self in
    let self :=
      fold_left (record_enum content) (finditer false enum_pattern content)
        self in
    (self, Some (determine_module content)).

(** The pools [__init__] creates. *)
Definition empty_pools : HeaderConsolidator :=
  {| structs := []; classes := []; enums := []; dependencies := [] |}.

(** The loop of [consolidate_headers] over the input files, each given by
    its stem and its text. *)
Definition scan_files (files : list (string * string))
  (self : HeaderConsolidator) : HeaderConsolidator :=
  fold_left
    (fun self file =>
       if should_skip_file (fst file) then self
       else fst (process_file self (snd file)))
    files self.

(** What the scanner maintains on the pools: each is a dictionary, every
    class has a dependency entry, no class name starts with a digit, and
    every struct name has the prefix the scanner asks for. *)
Record pools_ok (self : HeaderConsolidator) : Prop := {
  ok_classes : NoDup (map fst (classes self));
  ok_structs : NoDup (map fst (structs self));
  ok_enums : NoDup (map fst (enums self));
  ok_dependencies : NoDup (map fst (dependencies self));
  ok_entry :
    forall k, In k (map fst (classes self)) ->
    In k (map fst (dependencies self));
  ok_class_names :
    forall k c rest, In k (map fst (classes self)) ->
    k = String c rest -> isdigit c = false;
  ok_struct_names :
    forall k, In k (map fst (structs self)) -> startswith "Fstruct_" k = true
}.

(** The groups of an [ordered_content] have distinct names and none is
    empty. *)
Definition groups_ok (oc : dict (list string)) : Prop :=
  NoDup (map fst oc) /\ Forall (fun g => snd g <> []) oc.

(** A converted header as the converter writes it. *)
Definition actor_header : string :=
  "#pragma once" ++ nl ++
  "namespace game {" ++ nl ++
  "enum class EMode {" ++ nl ++
  "  Idle," ++ nl ++
  "};" ++ nl ++
  "struct Fstruct_Stats {" ++ nl ++
  "    FIELD(0x0000, float, Health);" ++ nl ++
  "};" ++ nl ++
  "class 3DActor : public Pawn {" ++ nl ++
  "public:" ++ nl ++
  "    FIELD(0x0120, RC::Unreal::TArray<Fstruct_Stats>, Stats);" ++ nl ++
  "    FIELD(0x0130, Weapon*, Held);" ++ nl ++
  "    FIELD(0x0138, bool, Armed);" ++ nl ++
  "};" ++ nl ++
  "} // namespace game" ++ nl.

End Consolidator.

Import PyStr Re Py DumpConverter Consolidator.

(** * Properties *)

(** ** Dictionaries and sorting *)

Section DictFacts.

Context {V : Type}.
Implicit Types (d : dict V) (k : string) (v : V).

Lemma get_In d k v : get d k = Some v -> In (k, v) d.
Proof.
  induction d as [|[k' v'] d IH]; simpl; [discriminate|].
  destruct (String.eqb_spec k' k) as [->|Hne].
  - intros [= ->]. now left.
  - intros H. right. auto.
Qed.

Lemma In_get d k v : NoDup (map fst d) -> In (k, v) d -> get d k = Some v.
Proof.
  induction d as [|[k' v'] d IH]; simpl; [tauto|].
  intros Hnd [[= -> ->]|Hin].
  - now rewrite String.eqb_refl.
  - inversion Hnd as [|? ? Hnotin Hnd']; subst.
    destruct (String.eqb_spec k' k) as [->|Hne]; [|auto].
    exfalso. apply Hnotin. now apply (in_map fst) in Hin.
Qed.

Lemma del_In d k x : In x (del d k) -> In x d.
Proof.
  induction d as [|[k' v'] d IH]; simpl; [tauto|].
  destruct (String.eqb k' k); simpl; intuition.
Qed.

Lemma del_length_le d k : List.length (del d k) <= List.length d.
Proof.
  induction d as [|[k' v'] d IH]; simpl; [lia|].
  destruct (String.eqb k' k); simpl; lia.
Qed.

Lemma del_length d k v :
  get d k = Some v -> List.length (del d k) < List.length d.
Proof.
  induction d as [|[k' v'] d IH]; simpl; [discriminate|].
  destruct (String.eqb k' k); simpl.
  - intros _. pose proof (del_length_le d k). lia.
  - intros H. apply IH in H. lia.
Qed.

Lemma del_absent d k : ~ In k (map fst d) -> del d k = d.
Proof.
  induction d as [|[k' v'] d IH]; simpl; [reflexivity|].
  intros H. destruct (String.eqb_spec k' k) as [->|Hne]; [tauto|].
  f_equal. apply IH. tauto.
Qed.

Lemma del_perm d k v :
  NoDup (map fst d) -> get d k = Some v ->
  Permutation d ((k, v) :: del d k).
Proof.
  induction d as [|[k' v'] d IH]; simpl; [discriminate|].
  intros Hnd. inversion Hnd as [|? ? Hnotin Hnd']; subst.
  destruct (String.eqb_spec k' k) as [->|Hne].
  - intros [= ->]. now rewrite del_absent.
  - intros H. rewrite perm_swap. constructor. auto.
Qed.

Lemma del_NoDup d k : NoDup (map fst d) -> NoDup (map fst (del d k)).
Proof.
  induction d as [|[k' v'] d IH]; simpl; [auto|].
  intros Hnd. inversion Hnd as [|? ? Hnotin Hnd']; subst.
  destruct (String.eqb k' k); simpl; [auto|].
  constructor; [|auto].
  intros Hin. apply Hnotin. apply in_map_iff in Hin as [x [<- Hx]].
  apply in_map. eapply del_In; eauto.
Qed.

Lemma del_key_gone d k : ~ In k (map fst (del d k)).
Proof.
  induction d as [|[k' v'] d IH]; simpl; [tauto|].
  destruct (String.eqb_spec k' k) as [->|Hne]; simpl; [auto|].
  intros [?|?]; auto.
Qed.

End DictFacts.

Lemma insert_perm x l : Permutation (insert x l) (x :: l).
Proof.
  induction l as [|y l IH]; simpl; [reflexivity|].
  destruct (item_ltb y x); [|reflexivity].
  rewrite IH. apply perm_swap.
Qed.

Lemma sorted_perm l : Permutation (sorted l) l.
Proof.
  induction l as [|x l IH]; simpl; [reflexivity|].
  rewrite insert_perm. now constructor.
Qed.

Lemma all_bodies_append_to oc k x :
  Permutation (all_bodies (append_to oc k x)) (x :: all_bodies oc).
Proof.
  unfold all_bodies.
  induction oc as [|[k' v] oc IH]; simpl; [reflexivity|].
  destruct (String.eqb k' k); simpl.
  - unfold append. rewrite <- app_assoc. simpl.
    symmetry. apply Permutation_middle.
  - rewrite IH. symmetry. apply Permutation_middle.
Qed.

Lemma all_bodies_add_all group d oc :
  Permutation (all_bodies (add_all group d oc)) (all_bodies oc ++ map snd d).
Proof.
  unfold add_all.
  rewrite <- (Permutation_map snd (sorted_perm d)).
  generalize (sorted d) as l. intros l. revert oc.
  induction l as [|x l IH]; intros oc; simpl.
  - now rewrite app_nil_r.
  - rewrite IH, all_bodies_append_to. simpl. apply Permutation_middle.
Qed.

Lemma mem_In x s : mem x s = true <-> In x s.
Proof.
  unfold mem. rewrite existsb_exists. split.
  - intros [y [Hin Heq]]. apply String.eqb_eq in Heq. now subst.
  - intros Hin. exists x. split; [assumption | apply String.eqb_refl].
Qed.

Lemma subset_In a b x : subset a b = true -> In x a -> In x b.
Proof.
  unfold subset. rewrite forallb_forall. intros H Hin.
  apply mem_In. auto.
Qed.

(** ** The scan and the two arms of the class loop *)

Lemma first_ready_sound items cls proc n c :
  first_ready items cls proc = Some (n, c) ->
  get cls n = Some c
  /\ exists ds, In (n, ds) items /\ subset ds proc = true.
Proof.
  induction items as [|[k ds] items IH]; simpl; [discriminate|].
  destruct (get cls k) as [content|] eqn:Hget.
  - destruct (subset ds proc) eqn:Hsub.
    + intros [= -> ->]. split; [assumption|]. exists ds. auto.
    + intros H. destruct (IH H) as [Hg [ds' [Hin Hs]]]. eauto.
  - intros H. destruct (IH H) as [Hg [ds' [Hin Hs]]]. eauto.
Qed.

Lemma fold_emit_stuck pass l st :
  let st' := fold_left (emit_stuck pass) l st in
  pending st' = pending st
  /\ processed st' = processed st
  /\ passes st' = passes st
  /\ log st' = (log st ++ map (stuck_emission pass) l)%list
  /\ Permutation (all_bodies (ordered_content st'))
       (all_bodies (ordered_content st) ++ map snd l).
Proof.
  revert st. induction l as [|x l IH]; intros st; simpl.
  - rewrite !app_nil_r. auto.
  - destruct (IH (emit_stuck pass st x)) as (H1 & H2 & H3 & H4 & H5).
    repeat split; try assumption.
    + rewrite H4. simpl. unfold append. now rewrite <- app_assoc.
    + rewrite H5. simpl. rewrite all_bodies_append_to. simpl.
      apply Permutation_middle.
Qed.

Lemma flush_spec st :
  pending (flush st) = pending st
  /\ processed (flush st) = processed st
  /\ passes (flush st) = S (passes st)
  /\ log (flush st)
     = (log st ++ map (stuck_emission (passes st)) (sorted (pending st)))%list
  /\ Permutation (all_bodies (ordered_content (flush st)))
       (all_bodies (ordered_content st) ++ map snd (pending st)).
Proof.
  destruct (fold_emit_stuck (passes st) (sorted (pending st)) st)
    as (H1 & H2 & H3 & H4 & H5).
  unfold flush. simpl. repeat split; try assumption.
  rewrite H5. apply Permutation_app_head, Permutation_map, sorted_perm.
Qed.

(** Induction over the iterations of the while loop. *)
Lemma schedule_ind deps (P : emitter -> emitter -> Prop) :
  (forall st, pending st = [] -> P st st) ->
  (forall st n c st',
      first_ready deps (pending st) (processed st) = Some (n, c) ->
      P (emit_ready n c st) st' -> P st st') ->
  (forall st,
      pending st <> [] ->
      first_ready deps (pending st) (processed st) = None ->
      P st (flush st)) ->
  forall fuel st st', schedule deps fuel st = Return st' -> P st st'.
Proof.
  intros Hdone Hready Hstuck.
  induction fuel as [|fuel IH]; intros st st'; simpl.
  - destruct (pending st) eqn:Hp; [|discriminate].
    intros [= <-]. auto.
  - destruct (pending st) eqn:Hp.
    + intros [= <-]. auto.
    + destruct (first_ready deps (p :: d) (processed st)) as [[n c]|] eqn:Hf.
      * intros H. apply (Hready st n c); [now rewrite Hp | auto].
      * intros [= <-]. apply Hstuck; rewrite Hp; [discriminate | assumption].
Qed.

(** The loop ends: a budget of the pool's size is never used up. *)
Lemma schedule_total deps fuel st :
  List.length (pending st) <= fuel ->
  exists st', schedule deps fuel st = Return st'.
Proof.
  revert st. induction fuel as [|fuel IH]; intros st Hlen; simpl.
  - destruct (pending st); [eauto | simpl in Hlen; lia].
  - destruct (pending st) eqn:Hp; [eauto|].
    destruct (first_ready deps (p :: d) (processed st)) as [[n c]|] eqn:Hf;
      [|eauto].
    apply IH. simpl.
    apply first_ready_sound in Hf as [Hg _].
    apply del_length in Hg. rewrite <- Hp in Hg. rewrite Hp in *.
    simpl in *. lia.
Qed.

Lemma schedule_passes deps fuel st st' :
  schedule deps fuel st = Return st' ->
  passes st' <= passes st + List.length (pending st).
Proof.
  revert fuel st st'.
  apply (schedule_ind deps
           (fun st st' => passes st' <= passes st + List.length (pending st))).
  - intros st _. lia.
  - intros st n c st' Hf IH.
    apply first_ready_sound in Hf as [Hg _]. apply del_length in Hg.
    simpl in IH. lia.
  - intros st Hne _. destruct (flush_spec st) as (_ & _ & -> & _).
    destruct (pending st); [congruence | simpl; lia].
Qed.

Lemma schedule_names deps fuel st st' :
  schedule deps fuel st = Return st' ->
  NoDup (map fst (pending st)) ->
  Permutation (map em_name (log st'))
    (map em_name (log st) ++ map fst (pending st)).
Proof.
  revert fuel st st'.
  apply (schedule_ind deps
           (fun st st' =>
              NoDup (map fst (pending st)) ->
              Permutation (map em_name (log st'))
                (map em_name (log st) ++ map fst (pending st)))).
  - intros st ->. now rewrite app_nil_r.
  - intros st n c st' Hf IH Hnd.
    apply first_ready_sound in Hf as [Hg _].
    rewrite IH by now apply del_NoDup. simpl.
    unfold append. rewrite map_app, <- app_assoc. simpl.
    apply Permutation_app_head.
    now rewrite (Permutation_map fst (del_perm _ _ _ Hnd Hg)).
  - intros st _ _ Hnd. destruct (flush_spec st) as (_ & _ & _ & -> & _).
    rewrite map_app, map_map. simpl.
    apply Permutation_app_head.
    change (fun x => fst x) with (@fst string string).
    apply Permutation_map, sorted_perm.
Qed.

Lemma schedule_bodies deps fuel st st' :
  schedule deps fuel st = Return st' ->
  NoDup (map fst (pending st)) ->
  Permutation (all_bodies (ordered_content st'))
    (all_bodies (ordered_content st) ++ map snd (pending st)).
Proof.
  revert fuel st st'.
  apply (schedule_ind deps
           (fun st st' =>
              NoDup (map fst (pending st)) ->
              Permutation (all_bodies (ordered_content st'))
                (all_bodies (ordered_content st) ++ map snd (pending st)))).
  - intros st ->. now rewrite app_nil_r.
  - intros st n c st' Hf IH Hnd.
    apply first_ready_sound in Hf as [Hg _].
    rewrite IH by now apply del_NoDup. simpl.
    rewrite all_bodies_append_to.
    rewrite (Permutation_map snd (del_perm _ _ _ Hnd Hg)). simpl.
    apply Permutation_middle.
  - intros st _ _ _. apply flush_spec.
Qed.

(** ** Termination and single placement *)

Ltac distinct_keys :=
  simpl; repeat constructor; simpl; intuition discriminate.

(** C4.  For a pool of N pending classes with distinct names, cyclic or
    dangling dependencies included, [sort_declarations] returns after at
    most N+1 passes of its while loop, the names it placed are the names
    of the pool, each once, and the bodies in the groups are the bodies
    of the enums, structs and classes, each once. *)
Theorem sort_declarations_places_each_once (self : HeaderConsolidator) :
  NoDup (map fst (classes self)) ->
  exists st,
    sort_run self = Return st
    /\ sort_declarations self = Return (ordered_content st)
    /\ passes st <= List.length (classes self) + 1
    /\ Permutation (map em_name (log st)) (map fst (classes self))
    /\ NoDup (map em_name (log st))
    /\ Permutation (all_bodies (ordered_content st))
         (map snd (enums self) ++ map snd (structs self)
          ++ map snd (classes self)).
Proof.
  intros Hnd.
  destruct (schedule_total (dependencies self) (List.length (classes self))
              (start self)) as [st Hrun]; [reflexivity|].
  exists st. unfold sort_declarations, sort_run. rewrite Hrun.
  pose proof (schedule_passes _ _ _ _ Hrun) as Hp.
  pose proof (schedule_names _ _ _ _ Hrun Hnd) as Hn.
  pose proof (schedule_bodies _ _ _ _ Hrun Hnd) as Hb.
  simpl in Hp, Hn, Hb.
  repeat split; try assumption; try reflexivity.
  - lia.
  - eapply Permutation_NoDup; [symmetry; exact Hn | exact Hnd].
  - rewrite Hb, !all_bodies_add_all. simpl. now rewrite <- app_assoc.
Qed.

Lemma sort_declarations_places_each_once_witness :
  NoDup (map fst (classes cyclic_pool))
  /\ exists st,
       sort_run cyclic_pool = Return st
       /\ sort_declarations cyclic_pool = Return (ordered_content st)
       /\ passes st <= List.length (classes cyclic_pool) + 1
       /\ Permutation (map em_name (log st)) (map fst (classes cyclic_pool))
       /\ NoDup (map em_name (log st))
       /\ Permutation (all_bodies (ordered_content st))
            (map snd (enums cyclic_pool) ++ map snd (structs cyclic_pool)
             ++ map snd (classes cyclic_pool)).
Proof.
  split.
  - distinct_keys.
  - apply (sort_declarations_places_each_once cyclic_pool). distinct_keys.
Defined.

(** ** Order of the ready arm *)

Lemma dict_functional {V : Type} (d : dict V) k v v' :
  NoDup (map fst d) -> In (k, v) d -> In (k, v') d -> v = v'.
Proof.
  intros Hnd H1 H2.
  apply (In_get _ _ _ Hnd) in H1. apply (In_get _ _ _ Hnd) in H2.
  congruence.
Qed.

Lemma ready_in_emit_ready n c st e :
  ready_in (emit_ready n c st) e ->
  ready_in st e
  \/ e = {| em_pass := passes st; em_branch := Ready; em_name := n;
            em_module := determine_module c; em_content := c |}.
Proof.
  unfold ready_in, emit_ready, append. simpl.
  intros [Hin Hb]. apply in_app_or in Hin as [Hin|[<-|[]]]; auto.
Qed.

Lemma ready_in_emit_ready_old n c st e :
  ready_in st e -> ready_in (emit_ready n c st) e.
Proof.
  unfold ready_in, emit_ready, append. simpl.
  intros [Hin Hb]. split; [apply in_or_app; auto | assumption].
Qed.

Lemma ready_in_flush st e : ready_in (flush st) e <-> ready_in st e.
Proof.
  unfold ready_in. destruct (flush_spec st) as (_ & _ & _ & -> & _).
  split.
  - intros [Hin Hb]. apply in_app_or in Hin as [Hin|Hin]; [auto|].
    apply in_map_iff in Hin as [x [<- _]]. discriminate.
  - intros [Hin Hb]. split; [apply in_or_app; auto | assumption].
Qed.

Lemma scheduling_start deps self : scheduling deps (start self).
Proof.
  constructor; unfold ready_in; simpl; tauto.
Qed.

Lemma scheduling_emit_ready deps st n c :
  NoDup (map fst deps) ->
  first_ready deps (pending st) (processed st) = Some (n, c) ->
  scheduling deps st -> scheduling deps (emit_ready n c st).
Proof.
  intros Hnd Hf Inv.
  apply first_ready_sound in Hf as [Hg [ds0 [Hin0 Hsub]]].
  assert (Hkey : In n (map fst (pending st))).
  { apply get_In in Hg. now apply (in_map fst) in Hg. }
  assert (Hfresh : ~ In n (processed st)).
  { intros Hin. now apply (sch_gone _ _ Inv) in Hin. }
  constructor.
  - intros e He. apply ready_in_emit_ready in He as [He| ->]; simpl; auto.
    right. now apply (sch_processed _ _ Inv).
  - intros m [<-|Hm].
    + exists {| em_pass := passes st; em_branch := Ready; em_name := n;
                em_module := determine_module c; em_content := c |}.
      split; [|reflexivity].
      unfold ready_in, emit_ready, append. simpl.
      split; [apply in_or_app; right; left; reflexivity | reflexivity].
    + destruct (sch_logged _ _ Inv m Hm) as [e [He Hname]].
      exists e. split; [now apply ready_in_emit_ready_old | assumption].
  - intros m [<-|Hm]; simpl.
    + apply del_key_gone.
    + intros Hin. apply (sch_gone _ _ Inv m Hm).
      apply in_map_iff in Hin as [x [<- Hx]].
      apply in_map. eapply del_In; eauto.
  - intros e ds b He Hds Hb.
    apply ready_in_emit_ready in He as [He| ->].
    + destruct (sch_before _ _ Inv e ds b He Hds Hb) as [e' (He' & Hn & Hlt)].
      exists e'. auto using ready_in_emit_ready_old.
    + simpl in *.
      assert (ds = ds0) by (eapply dict_functional; eauto). subst ds.
      pose proof (subset_In _ _ _ Hsub Hb) as Hproc.
      destruct (sch_logged _ _ Inv b Hproc) as [e' [He' Hname]].
      exists e'. split; [now apply ready_in_emit_ready_old|].
      split; [assumption|]. now apply (sch_pass _ _ Inv).
  - intros e1 e2 He1 He2 Hname.
    apply ready_in_emit_ready in He1 as [He1| ->];
      apply ready_in_emit_ready in He2 as [He2| ->]; simpl in *.
    + now apply (sch_unique _ _ Inv).
    + exfalso. apply Hfresh. rewrite <- Hname.
      now apply (sch_processed _ _ Inv).
    + exfalso. apply Hfresh. rewrite Hname.
      now apply (sch_processed _ _ Inv).
    + reflexivity.
  - intros e He. apply ready_in_emit_ready in He as [He| ->]; simpl.
    + apply (sch_pass _ _ Inv) in He. lia.
    + lia.
Qed.

Lemma scheduling_flush deps st :
  scheduling deps st -> scheduling deps (flush st).
Proof.
  intros Inv.
  destruct (flush_spec st) as (Hp & Hpr & Hpa & _ & _).
  pose proof (fun e => proj1 (ready_in_flush st e)) as Hold.
  pose proof (fun e => proj2 (ready_in_flush st e)) as Hnew.
  constructor.
  - intros e He. rewrite Hpr. apply (sch_processed _ _ Inv). auto.
  - intros n Hn. rewrite Hpr in Hn.
    destruct (sch_logged _ _ Inv n Hn) as [e [He Hname]].
    exists e. split; auto.
  - rewrite Hp, Hpr. apply (sch_gone _ _ Inv).
  - intros e ds b He Hds Hb. apply Hold in He.
    destruct (sch_before _ _ Inv e ds b He Hds Hb) as [e' (He' & Hn & Hlt)].
    exists e'. split; auto.
  - intros e1 e2 He1 He2. apply Hold in He1, He2.
    now apply (sch_unique _ _ Inv).
  - intros e He. apply Hold in He. rewrite Hpa.
    apply (sch_pass _ _ Inv) in He. lia.
Qed.

Lemma schedule_scheduling deps fuel st st' :
  NoDup (map fst deps) ->
  schedule deps fuel st = Return st' ->
  scheduling deps st -> scheduling deps st'.
Proof.
  intros Hnd. revert fuel st st'.
  apply (schedule_ind deps
           (fun st st' => scheduling deps st -> scheduling deps st')).
  - auto.
  - intros st n c st' Hf IH Inv. apply IH.
    now apply scheduling_emit_ready.
  - intros st _ _. apply scheduling_flush.
Qed.

(** A dependency of a class placed by the ready arm was placed by the
    ready arm in a strictly earlier pass. *)
Lemma ready_dependency_before self st eA ds b :
  NoDup (map fst (dependencies self)) ->
  sort_run self = Return st ->
  ready_in st eA ->
  get (dependencies self) (em_name eA) = Some ds ->
  In b ds ->
  exists eB, ready_in st eB /\ em_name eB = b /\ em_pass eB < em_pass eA.
Proof.
  intros Hnd Hrun HA Hds Hb.
  pose proof (schedule_scheduling _ _ _ _ Hnd Hrun
                (scheduling_start _ self)) as Inv.
  apply get_In in Hds.
  exact (sch_before _ _ Inv eA ds b HA Hds Hb).
Qed.

(** C5.  When [A] and [B] are both placed by the ready (non-deadlock) arm
    and [B] is in the dependency set of [A], the pass that placed [B] is
    not later than the pass that placed [A]. *)
Theorem ready_dependency_not_later (self : HeaderConsolidator)
  (st : emitter) (eA eB : emission) (ds : list string) :
  NoDup (map fst (dependencies self)) ->
  sort_run self = Return st ->
  In eA (log st) -> em_branch eA = Ready ->
  In eB (log st) -> em_branch eB = Ready ->
  get (dependencies self) (em_name eA) = Some ds ->
  In (em_name eB) ds ->
  em_pass eB <= em_pass eA.
Proof.
  intros Hnd Hrun HinA HbA HinB HbB Hds Hdep.
  destruct (ready_dependency_before self st eA ds (em_name eB) Hnd Hrun
              (conj HinA HbA) Hds Hdep) as [e' (He' & Hname & Hlt)].
  pose proof (schedule_scheduling _ _ _ _ Hnd Hrun
                (scheduling_start _ self)) as Inv.
  rewrite (sch_unique _ _ Inv eB e' (conj HinB HbB) He' (eq_sym Hname)).
  lia.
Qed.

Lemma ready_dependency_not_later_witness :
  NoDup (map fst (dependencies cyclic_pool))
  /\ sort_run cyclic_pool = Return cyclic_run
  /\ In emission_D (log cyclic_run) /\ em_branch emission_D = Ready
  /\ In emission_C (log cyclic_run) /\ em_branch emission_C = Ready
  /\ get (dependencies cyclic_pool) (em_name emission_D) = Some ["C"]
  /\ In (em_name emission_C) ["C"]
  /\ em_pass emission_C <= em_pass emission_D.
Proof.
  assert (Hnd : NoDup (map fst (dependencies cyclic_pool))) by distinct_keys.
  assert (Hrun : sort_run cyclic_pool = Return cyclic_run) by reflexivity.
  assert (HD : In emission_D (log cyclic_run)) by (simpl; auto).
  assert (HC : In emission_C (log cyclic_run)) by (simpl; auto).
  assert (Hin : In (em_name emission_C) ["C"]) by (simpl; auto).
  split; [exact Hnd|]. split; [exact Hrun|].
  split; [exact HD|]. split; [reflexivity|].
  split; [exact HC|]. split; [reflexivity|].
  split; [reflexivity|]. split; [exact Hin|].
  exact (ready_dependency_not_later cyclic_pool cyclic_run emission_D
           emission_C ["C"] Hnd Hrun HD eq_refl HC eq_refl eq_refl Hin).
Defined.

(** ** Categories *)

Lemma schedule_modules deps fuel st st' :
  schedule deps fuel st = Return st' ->
  forall e, In e (log st') ->
  In e (log st)
  \/ (In (em_name e, em_content e) (pending st)
      /\ em_module e = determine_module (em_content e)).
Proof.
  revert fuel st st'.
  apply (schedule_ind deps
           (fun st st' =>
              forall e, In e (log st') ->
              In e (log st)
              \/ (In (em_name e, em_content e) (pending st)
                  /\ em_module e = determine_module (em_content e)))).
  - auto.
  - intros st n c st' Hf IH e He.
    apply first_ready_sound in Hf as [Hg _]. apply get_In in Hg.
    destruct (IH e He) as [Hin|[Hin Hm]].
    + unfold emit_ready, append in Hin. simpl in Hin.
      apply in_app_or in Hin as [Hin|[<-|[]]]; simpl; auto.
    + right. split; [|assumption]. simpl in Hin. eapply del_In; eauto.
  - intros st _ _ e He.
    destruct (flush_spec st) as (_ & _ & _ & Hlog & _).
    rewrite Hlog in He. apply in_app_or in He as [He|He]; [auto|].
    apply in_map_iff in He as [[n c] [<- Hin]]. simpl. right. split; [|auto].
    eapply Permutation_in; [apply sorted_perm | exact Hin].
Qed.





(** ** The matcher consumes its subject *)

Lemma substring_length_le n s :
  String.length (substring 0 n s) <= String.length s.
Proof.
  revert n. induction s as [|c s IH]; intros [|n]; simpl; try lia.
  specialize (IH n). lia.
Qed.

Section MatcherFacts.

Variable ic : bool.
Variable total : nat.
Context {R : Type}.
Implicit Types (s : string) (caps : list string) (k : @K R) (x : R).

Lemma star_consumes p s caps k x :
  star ic p s caps k = Some x ->
  exists s', k s' caps = Some x /\ String.length s' <= String.length s.
Proof.
  induction s as [|c s IH]; simpl.
  - eauto.
  - destruct (test ic p c); [|eauto].
    destruct (star ic p s caps k) eqn:Hs; [|eauto].
    intros [= ->]. destruct (IH eq_refl) as [s' [Hk Hl]]. eauto.
Qed.

Lemma rep_consumes n p s caps k x :
  rep ic n p s caps k = Some x ->
  exists s', k s' caps = Some x /\ String.length s' <= String.length s.
Proof.
  revert s. induction n as [|n IH]; intros s; simpl.
  - eauto.
  - destruct s as [|c s]; [discriminate|].
    destruct (test ic p c); [|discriminate].
    intros H. destruct (IH _ H) as [s' [Hk Hl]]. simpl. eauto.
Qed.

Lemma lit_consumes l s caps k x :
  lit ic l s caps k = Some x ->
  exists s',
    k s' caps = Some x
    /\ String.length s' + String.length l = String.length s.
Proof.
  revert s. induction l as [|a l IH]; intros s; simpl.
  - intros H. exists s. split; [assumption | lia].
  - destruct s as [|c s]; [discriminate|].
    destruct (test ic (one a) c); [|discriminate].
    intros H. destruct (IH _ H) as [s' [Hk Hl]]. exists s'. simpl.
    split; [assumption | lia].
Qed.

(** The continuation is resumed on a suffix no longer than the subject,
    and every group closed meanwhile is no longer than the subject. *)
Lemma run_consumes r : forall s caps k x,
  run ic total r s caps k = Some x ->
  exists s' new,
    k s' (caps ++ new)%list = Some x
    /\ String.length s' <= String.length s
    /\ Forall (fun g => String.length g <= String.length s) new.
Proof.
  induction r as [p|l|p|p|n p|r IH|r1 IH1 r2 IH2|r IH| |];
    intros s caps k x; simpl.
  - destruct s as [|c s]; [discriminate|].
    destruct (test ic p c); [|discriminate].
    intros H. exists s, []. rewrite app_nil_r. simpl. auto.
  - intros H. apply lit_consumes in H as [s' [Hk Hl]].
    exists s', []. rewrite app_nil_r. split; [assumption|].
    split; [lia | constructor].
  - intros H. apply star_consumes in H as [s' [Hk Hl]].
    exists s', []. rewrite app_nil_r. auto.
  - destruct s as [|c s]; [discriminate|].
    destruct (test ic p c); [|discriminate].
    intros H. apply star_consumes in H as [s' [Hk Hl]].
    exists s', []. rewrite app_nil_r. simpl. auto.
  - intros H. apply rep_consumes in H as [s' [Hk Hl]].
    exists s', []. rewrite app_nil_r. auto.
  - destruct (run ic total r s caps k) eqn:Hr.
    + intros [= ->]. eauto.
    + intros H. exists s, []. rewrite app_nil_r. auto.
  - intros H. apply IH1 in H as (s1 & new1 & H & Hl1 & Hf1).
    apply IH2 in H as (s2 & new2 & H & Hl2 & Hf2).
    exists s2, (new1 ++ new2)%list. rewrite app_assoc.
    split; [assumption|]. split; [lia|].
    apply Forall_app. split; [assumption|].
    eapply Forall_impl; [|exact Hf2]. simpl. intros g Hg. lia.
  - intros H. apply IH in H as (s' & new & H & Hl & Hf).
    exists s', (new ++ [substring 0 (String.length s - String.length s') s])%list.
    rewrite app_assoc. split; [assumption|]. split; [assumption|].
    apply Forall_app. split; [assumption|].
    constructor; [apply substring_length_le | constructor].
  - destruct (Nat.eqb (String.length s) total); [|discriminate].
    intros H. exists s, []. rewrite app_nil_r. auto.
  - intros H. exists s, []. rewrite app_nil_r.
    destruct s as [|c [|c' s]]; try discriminate; auto.
    destruct (is_code 10 c); [auto | discriminate].
Qed.

End MatcherFacts.

(** In a match of [prefix(group)...] with a non-empty literal prefix, the
    first group is shorter than the subject. *)
Lemma at_pos_lit_group ic total l r s m :
  l <> EmptyString ->
  at_pos ic total (Lit l >> r) s = Some m ->
  String.length (group 1 m) < String.length s.
Proof.
  intros Hl. unfold at_pos. simpl. intros H.
  apply lit_consumes in H as [s1 [H Hlen]].
  apply run_consumes in H as (s2 & new & H & Hl2 & Hf).
  injection H as <-. unfold group. simpl.
  assert (0 < String.length l) by (destruct l; [congruence | simpl; lia]).
  destruct new as [|g new]; simpl; [lia|].
  inversion Hf; subst. lia.
Qed.

Lemma search_from_lit_group ic total l r s m :
  l <> EmptyString ->
  search_from ic total (Lit l >> r) s = Some m ->
  String.length (group 1 m) < String.length s.
Proof.
  intros Hl. induction s as [|c s IH]; simpl.
  - destruct (at_pos ic total (Lit l >> r) "") eqn:Ha; [|discriminate].
    intros [= ->]. now apply at_pos_lit_group in Ha.
  - destruct (at_pos ic total (Lit l >> r) (String c s)) eqn:Ha.
    + intros [= ->]. now apply at_pos_lit_group in Ha.
    + intros H. apply IH in H. lia.
Qed.

Lemma sub_from_shrinks ic total r skip s :
  String.length (sub_from ic total r "" skip s) <= String.length s.
Proof.
  revert skip. induction s as [|c s IH]; intros skip.
  - destruct skip; simpl; [|lia].
    destruct (at_pos ic total r "") as [[rest caps]|]; simpl; lia.
  - destruct skip as [|skip]; simpl.
    + destruct (at_pos ic total r (String c s)) as [[rest caps]|]; simpl.
      * destruct (String.length rest) as [|nr];
          [|destruct (String.length s - nr) as [|n]]; simpl;
          try (specialize (IH 0); lia).
        -- specialize (IH (String.length s)). lia.
        -- specialize (IH n). lia.
      * specialize (IH 0). lia.
    + specialize (IH skip). lia.
Qed.

(** ** [convert_type] terminates *)

Lemma search_group1_shorter w s inner :
  search_group1 (generic_re w) s = Return inner ->
  String.length inner < String.length s.
Proof.
  unfold search_group1, re_search.
  destruct (search_from false (String.length s) (generic_re w) s) as [m|] eqn:Hs;
    [|discriminate].
  intros [= <-]. eapply search_from_lit_group; [|exact Hs].
  destruct w; discriminate.
Qed.

Lemma search_group1_never_diverges r s : search_group1 r s <> OutOfFuel.
Proof. unfold search_group1. destruct (re_search false r s); discriminate. Qed.

Lemma class_prefix_shrinks t :
  String.length (re_sub false class_prefix_re "" t) <= String.length t.
Proof. apply sub_from_shrinks. Qed.

(** A wrapper arm diverges only if its recursive call does. *)
Lemma wrapper_arm_total rec w u :
  (forall inner,
      String.length inner < String.length u -> rec inner <> OutOfFuel) ->
  (inner_type <- search_group1 (generic_re w) u ;;
   converted_inner <- rec inner_type ;;
   Return (rewrap w converted_inner)) <> OutOfFuel.
Proof.
  intros Hrec.
  destruct (search_group1 (generic_re w) u) as [inner| |] eqn:Hs; simpl;
    [|discriminate|now apply search_group1_never_diverges in Hs].
  apply search_group1_shorter in Hs. specialize (Hrec inner Hs).
  destruct (rec inner); simpl; congruence.
Qed.

Lemma convert_type_body_total self rec t :
  (forall inner,
      String.length inner < String.length t -> rec inner <> OutOfFuel) ->
  convert_type_body self rec t <> OutOfFuel.
Proof.
  intros Hrec. unfold convert_type_body.
  destruct (is_ignored self t); [discriminate|].
  pose proof (class_prefix_shrinks t) as Hu.
  set (u := re_sub false class_prefix_re "" t) in *.
  assert (Hrec' : forall inner,
             String.length inner < String.length u -> rec inner <> OutOfFuel).
  { intros inner Hlt. apply Hrec. lia. }
  destruct (startswith "TArray<" u); [now apply wrapper_arm_total|].
  destruct (startswith "TSubclassOf<" u); [now apply wrapper_arm_total|].
  destruct (startswith_any core_prefixes u); [discriminate|].
  destruct (get (type_mappings self) u); [discriminate|].
  destruct (get (type_mappings self) (rstrip "*" u)); [discriminate|].
  destruct (startswith "TEnumAsByte<" u).
  - destruct (search_group1 (generic_re "TEnumAsByte") u) eqn:Hs; simpl;
      try discriminate.
    now apply search_group1_never_diverges in Hs.
  - destruct (negb _); discriminate.
Qed.

(** The budget [convert_type] starts from is never used up: the function
    terminates on every token. *)
Lemma convert_type_fuel_total self fuel t :
  String.length t < fuel -> convert_type_fuel self fuel t <> OutOfFuel.
Proof.
  revert t. induction fuel as [|fuel IH]; intros t Hlen; [lia|].
  simpl. apply convert_type_body_total.
  intros inner Hlt. apply IH. lia.
Qed.

Lemma convert_type_terminates self t : convert_type self t <> OutOfFuel.
Proof. apply convert_type_fuel_total. lia. Qed.

(** The body reads its recursive calls only through their results. *)
Lemma convert_type_body_ext self rec rec' t :
  (forall x, rec x <> OutOfFuel -> rec' x = rec x) ->
  convert_type_body self rec t <> OutOfFuel ->
  convert_type_body self rec' t = convert_type_body self rec t.
Proof.
  intros Hext. unfold convert_type_body.
  destruct (is_ignored self t); [reflexivity|].
  set (u := re_sub false class_prefix_re "" t).
  assert (Harm : forall w,
    (inner_type <- search_group1 (generic_re w) u ;;
     converted_inner <- rec inner_type ;;
     Return (rewrap w converted_inner)) <> OutOfFuel ->
    (inner_type <- search_group1 (generic_re w) u ;;
     converted_inner <- rec' inner_type ;;
     Return (rewrap w converted_inner))
    = (inner_type <- search_group1 (generic_re w) u ;;
       converted_inner <- rec inner_type ;;
       Return (rewrap w converted_inner))).
  { intros w. destruct (search_group1 (generic_re w) u) as [inner| |]; simpl;
      try reflexivity.
    intros H. rewrite Hext; [reflexivity|].
    intros Hr. rewrite Hr in H. now apply H. }
  destruct (startswith "TArray<" u); [apply Harm|].
  destruct (startswith "TSubclassOf<" u); [apply Harm|].
  reflexivity.
Qed.

(** More budget does not change a result. *)
Lemma convert_type_fuel_more self fuel t :
  convert_type_fuel self fuel t <> OutOfFuel ->
  convert_type_fuel self (S fuel) t = convert_type_fuel self fuel t.
Proof.
  revert t. induction fuel as [|fuel IH]; intros t H; [now simpl in H|].
  change (convert_type_body self (convert_type_fuel self (S fuel)) t
          = convert_type_body self (convert_type_fuel self fuel) t).
  apply convert_type_body_ext; [|exact H].
  intros x Hx. now apply IH.
Qed.

Lemma convert_type_fuel_le self n m t :
  n <= m ->
  convert_type_fuel self n t <> OutOfFuel ->
  convert_type_fuel self m t = convert_type_fuel self n t.
Proof.
  intros Hle H. induction Hle as [|m Hle IH]; [reflexivity|].
  rewrite convert_type_fuel_more; [exact IH|]. now rewrite IH.
Qed.

Lemma convert_type_fuel_enough self fuel t :
  convert_type_fuel self fuel t <> OutOfFuel ->
  convert_type self t = convert_type_fuel self fuel t.
Proof.
  intros H. unfold convert_type.
  destruct (Nat.le_gt_cases fuel (S (String.length t))) as [Hle|Hgt].
  - now apply convert_type_fuel_le.
  - symmetry. apply convert_type_fuel_le; [lia|].
    apply convert_type_fuel_total. lia.
Qed.

(** [convert_type] satisfies the equation of the source. *)
Lemma convert_type_unfold self t :
  convert_type self t = convert_type_body self (convert_type self) t.
Proof.
  unfold convert_type at 1. simpl.
  symmetry. apply convert_type_body_ext.
  - intros x Hx. now apply convert_type_fuel_enough.
  - apply (convert_type_terminates self t).
Qed.

(** ** Totality of [convert_type] *)

(** C1.  [convert_type] is not total: a token that opens a wrapper without
    closing it makes [re.search] return [None], and [.group(1)] raises.
    The line extractor passes such a token on. *)
Theorem convert_type_raises_on_unclosed_wrapper :
  convert_type init "TArray<" = Raises AttributeError
  /\ convert_type init "TSubclassOf<>" = Raises AttributeError
  /\ re_match true field_re "TArray< x; // 0x10"
     = Some ("", ["TArray<"; "x"; "0x10"])
  /\ convert_line_to_field init "TArray< x; // 0x10" = Raises AttributeError.
Proof. repeat split; vm_compute; reflexivity. Qed.

(** ** The ignore set *)

Lemma is_ignored_spec self t :
  is_ignored self t = true
  <-> exists ignored, In ignored (ignored_types self)
                      /\ contains ignored t = true.
Proof. unfold is_ignored. apply existsb_exists. Qed.

Lemma convert_type_ignored self t :
  is_ignored self t = true -> convert_type self t = Return None.
Proof.
  intros H. rewrite convert_type_unfold. unfold convert_type_body.
  now rewrite H.
Qed.

(** C6.  A type token that contains a name of the ignore set, wherever it
    stands (bare, behind a pointer, inside a wrapper), converts to [None],
    and a line whose type token it is yields no field, in the class and in
    the struct extractor. *)
Theorem ignored_type_never_emitted (ue_type ignored : string) :
  In ignored (ignored_types init) ->
  contains ignored ue_type = true ->
  convert_type init ue_type = Return None
  /\ (forall line m,
         re_match true field_re line = Some m ->
         group 1 m = ue_type ->
         convert_line_to_field init line = Return None)
  /\ (forall line m,
         re_match true struct_field_re line = Some m ->
         group 1 m = ue_type ->
         convert_struct_field init line = Return None).
Proof.
  intros Hin Hsub.
  assert (Hc : convert_type init ue_type = Return None).
  { apply convert_type_ignored, is_ignored_spec. eauto. }
  split; [exact Hc|]. split; intros line m Hm Hg.
  - unfold convert_line_to_field. rewrite Hm, Hg, Hc. reflexivity.
  - unfold convert_struct_field. rewrite Hm, Hg, Hc. reflexivity.
Qed.

Lemma ignored_type_never_emitted_witness :
  In "TSoftObjectPtr" (ignored_types init)
  /\ contains "TSoftObjectPtr" "TArray<TSoftObjectPtr<UObject>>" = true
  /\ convert_type init "TArray<TSoftObjectPtr<UObject>>" = Return None.
Proof.
  assert (Hin : In "TSoftObjectPtr" (ignored_types init))
    by (simpl; tauto).
  assert (Hsub : contains "TSoftObjectPtr" "TArray<TSoftObjectPtr<UObject>>"
                 = true) by reflexivity.
  split; [exact Hin|]. split; [exact Hsub|].
  exact (proj1 (ignored_type_never_emitted
                  "TArray<TSoftObjectPtr<UObject>>" "TSoftObjectPtr"
                  Hin Hsub)).
Defined.

(** ** Engine-core types *)

Lemma core_prefix_head t :
  startswith_any core_prefixes t = true ->
  exists rest, t = String "U" rest \/ t = String "A" rest.
Proof.
  intros H. apply existsb_exists in H as [p [Hin Hp]].
  destruct t as [|c rest]; [destruct p; [|discriminate];
    simpl in Hin; intuition discriminate|].
  exists rest.
  simpl in Hin. destruct Hin as [<-|[<-|[<-|[]]]]; cbn [startswith] in Hp;
    apply andb_prop in Hp as [Hc _]; apply Ascii.eqb_eq in Hc; subst; auto.
Qed.

Lemma lit_mismatch {R : Type} l s caps (k : @K R) :
  startswith l s = false -> lit false l s caps k = None.
Proof.
  revert s. induction l as [|a l IH]; intros s; simpl; [discriminate|].
  destruct s as [|c s]; [reflexivity|].
  unfold test, one. rewrite (Ascii.eqb_sym c a).
  destruct (Ascii.eqb a c); simpl; [apply IH | reflexivity].
Qed.

Lemma sub_from_bol_inside ic total r s :
  String.length s < total -> sub_from ic total (Bol >> r) "" 0 s = s.
Proof.
  induction s as [|c s IH]; intros Hlen.
  - cbn [sub_from]. unfold at_pos. cbn [run].
    destruct (Nat.eqb_spec (String.length "") total) as [He|_];
      [simpl in *; lia | reflexivity].
  - cbn [sub_from]. unfold at_pos. cbn [run].
    destruct (Nat.eqb_spec (String.length (String c s)) total) as [He|_];
      [lia|].
    f_equal. apply IH. simpl in Hlen. lia.
Qed.

(** [re.sub(r'^class\s+', '', t)] leaves a token without the keyword. *)
Lemma class_prefix_absent t :
  startswith "class" t = false -> re_sub false class_prefix_re "" t = t.
Proof.
  intros H. unfold re_sub, class_prefix_re.
  destruct t as [|c t]; [reflexivity|].
  cbn [sub_from]. unfold at_pos. cbn [run].
  rewrite Nat.eqb_refl, (lit_mismatch _ _ _ _ H).
  f_equal. apply sub_from_bol_inside. simpl. lia.
Qed.

Lemma convert_type_core t :
  startswith_any core_prefixes t = true ->
  is_ignored init t = false ->
  convert_type init t = Return (Some t).
Proof.
  intros Hcore Hign.
  rewrite convert_type_unfold. unfold convert_type_body. rewrite Hign.
  destruct (core_prefix_head t Hcore) as [rest [->| ->]];
    (rewrite class_prefix_absent by reflexivity);
    cbn [startswith Ascii.eqb Bool.eqb andb]; now rewrite Hcore.
Qed.

Lemma get_filter_other {V : Type} (d : dict V) keys k :
  mem k keys = false ->
  get (filter (fun kv => negb (mem (fst kv) keys)) d) k = get d k.
Proof.
  intros Hk. induction d as [|[k' v] d IH]; simpl; [reflexivity|].
  destruct (String.eqb_spec k' k) as [->|Hne].
  - rewrite Hk. simpl. now rewrite String.eqb_refl.
  - destruct (negb (mem k' keys)); simpl; [|exact IH].
    destruct (String.eqb_spec k' k); [contradiction | exact IH].
Qed.

Lemma rstrip_idempotent c s : rstrip c (rstrip c s) = rstrip c s.
Proof.
  induction s as [|a s IH]; simpl; [reflexivity|].
  destruct (String.eqb (rstrip c s) "" && Ascii.eqb a c)%bool eqn:Hd;
    simpl; [reflexivity|].
  now rewrite IH, Hd.
Qed.

Lemma convert_type_fuel_without_core_pointers fuel t :
  convert_type_fuel (without_keys ["AActor*"; "UObject*"] init) fuel t
  = convert_type_fuel init fuel t.
Proof.
  revert t. induction fuel as [|fuel IH]; intros t; [reflexivity|].
  cbn [convert_type_fuel]. unfold convert_type_body.
  change (is_ignored (without_keys ["AActor*"; "UObject*"] init) t)
    with (is_ignored init t).
  destruct (is_ignored init t); [reflexivity|].
  set (u := re_sub false class_prefix_re "" t).
  destruct (startswith "TArray<" u).
  { destruct (search_group1 (generic_re "TArray") u); simpl;
      [now rewrite IH | reflexivity | reflexivity]. }
  destruct (startswith "TSubclassOf<" u).
  { destruct (search_group1 (generic_re "TSubclassOf") u); simpl;
      [now rewrite IH | reflexivity | reflexivity]. }
  destruct (startswith_any core_prefixes u) eqn:Hcore; [reflexivity|].
  unfold without_keys. cbn [type_mappings].
  rewrite !get_filter_other; [reflexivity| |].
  - destruct (mem (rstrip "*" u) ["AActor*"; "UObject*"]) eqn:Hm;
      [|reflexivity].
    apply mem_In in Hm. pose proof (rstrip_idempotent "*" u) as Hi.
    simpl in Hm. destruct Hm as [He|[He|[]]]; rewrite <- He in Hi;
      discriminate Hi.
  - destruct (mem u ["AActor*"; "UObject*"]) eqn:Hm; [|reflexivity].
    apply mem_In in Hm. simpl in Hm.
    destruct Hm as [He|[He|[]]]; rewrite <- He in Hcore; discriminate Hcore.
Qed.

(** C10.  A token that starts with an engine-core prefix and contains no
    ignored name is returned as it is; ['AActor*'] and ['UObject*'] are
    such tokens, and the mapping table without their two entries converts
    every token to the same result: the entries are never read. *)
Theorem core_types_returned_unchanged (ue_type : string) :
  startswith_any core_prefixes ue_type = true ->
  is_ignored init ue_type = false ->
  convert_type init ue_type = Return (Some ue_type)
  /\ convert_type init "AActor*" = Return (Some "AActor*")
  /\ convert_type init "UObject*" = Return (Some "UObject*")
  /\ get (type_mappings init) "AActor*" = Some "RC::Unreal::AActor*"
  /\ get (type_mappings init) "UObject*" = Some "RC::Unreal::UObject*"
  /\ (forall t,
         convert_type (without_keys ["AActor*"; "UObject*"] init) t
         = convert_type init t).
Proof.
  intros Hcore Hign.
  split; [now apply convert_type_core|].
  split; [now apply convert_type_core|].
  split; [now apply convert_type_core|].
  split; [reflexivity|]. split; [reflexivity|].
  intros t. apply convert_type_fuel_without_core_pointers.
Qed.

Lemma core_types_returned_unchanged_witness :
  startswith_any core_prefixes "UActorComponent*" = true
  /\ is_ignored init "UActorComponent*" = false
  /\ convert_type init "UActorComponent*" = Return (Some "UActorComponent*").
Proof.
  split; [reflexivity|]. split; [reflexivity|].
  exact (proj1 (core_types_returned_unchanged "UActorComponent*"
                  eq_refl eq_refl)).
Defined.

(** ** Converting a result again *)

Lemma rstrip_head c a s :
  Ascii.eqb a c = false -> rstrip c (String a s) = String a (rstrip c s).
Proof. intros H. simpl. now rewrite H, andb_false_r. Qed.

(** A token that starts with the letter of the namespace [RC::Unreal::] is
    returned as it is, unless it is ignored. *)
Lemma convert_type_namespaced rest r2 :
  convert_type init (String "R" rest) = Return (Some r2) ->
  r2 = String "R" rest.
Proof.
  rewrite convert_type_unfold. unfold convert_type_body.
  destruct (is_ignored init (String "R" rest)); [discriminate|].
  rewrite class_prefix_absent by reflexivity.
  rewrite rstrip_head by reflexivity.
  cbn. rewrite String.eqb_refl. cbn. now intros [= <-].
Qed.

Lemma fixed_mapped_values :
  Forall (fun v => convert_type init v = Return (Some v))
    (List.app (map snd (type_mappings init))
       (map (fun kv => snd kv ++ "*") (type_mappings init))).
Proof.
  cbv [map List.app type_mappings init snd].
  repeat (constructor; [vm_compute; reflexivity|]). constructor.
Qed.

(** What the arms before the byte-enum unwrap return. *)
Lemma decided_by_table_result t r :
  decided_by_table init t = true ->
  convert_type init t = Return (Some r) ->
  (exists rest, r = String "R" rest)
  \/ In r (List.app (map snd (type_mappings init))
             (map (fun kv => snd kv ++ "*") (type_mappings init)))
  \/ startswith_any core_prefixes r = true.
Proof.
  unfold decided_by_table. rewrite convert_type_unfold.
  unfold convert_type_body.
  destruct (is_ignored init t); [discriminate|].
  set (u := re_sub false class_prefix_re "" t).
  assert (Harm : forall w,
    (inner_type <- search_group1 (generic_re w) u ;;
     converted_inner <- convert_type init inner_type ;;
     Return (rewrap w converted_inner)) = Return (Some r) ->
    exists rest, r = String "R" rest).
  { intros w. destruct (search_group1 (generic_re w) u) as [inner| |];
      simpl; try discriminate.
    destruct (convert_type init inner) as [[c|]| |]; simpl; try discriminate.
    unfold rewrap. destruct (truthy_opt (Some c)); [|discriminate].
    intros [= <-]. simpl. eauto. }
  destruct (startswith "TArray<" u); [intros _ H; left; eauto|].
  destruct (startswith "TSubclassOf<" u); [intros _ H; left; eauto|].
  destruct (startswith_any core_prefixes u) eqn:Hcore.
  { intros _ [= <-]. auto. }
  unfold has_key.
  destruct (get (type_mappings init) u) as [mapped|] eqn:Hg.
  { intros _ [= <-]. right. left. apply in_or_app. left.
    apply get_In in Hg. now apply (in_map snd) in Hg. }
  destruct (get (type_mappings init) (rstrip "*" u)) as [mapped|] eqn:Hb.
  { intros _ [= <-]. right. left. apply in_or_app. right.
    apply get_In in Hb.
    now apply (in_map (fun kv => snd kv ++ "*")) in Hb. }
  discriminate.
Qed.

(** C7, as amended.  When the first conversion is decided by a wrapper, an
    engine-core prefix, the mapping table or the pointer-to-mapped rule,
    and both conversions return a type, converting the result again
    returns it unchanged. *)
Theorem convert_type_idempotent_when_decided_by_table (t r r2 : string) :
  decided_by_table init t = true ->
  convert_type init t = Return (Some r) ->
  convert_type init r = Return (Some r2) ->
  r2 = r.
Proof.
  intros Hd H1 H2.
  destruct (decided_by_table_result t r Hd H1) as [[rest ->]|[Hin|Hcore]].
  - now apply convert_type_namespaced.
  - pose proof fixed_mapped_values as Hf.
    rewrite Forall_forall in Hf. rewrite (Hf r Hin) in H2.
    now injection H2.
  - destruct (is_ignored init r) eqn:Hign.
    + rewrite (convert_type_ignored _ _ Hign) in H2. discriminate.
    + rewrite (convert_type_core _ Hcore Hign) in H2. now injection H2.
Qed.

Lemma convert_type_idempotent_when_decided_by_table_witness :
  decided_by_table init "TArray<int32>" = true
  /\ convert_type init "TArray<int32>"
     = Return (Some "RC::Unreal::TArray<int32_t>")
  /\ convert_type init "RC::Unreal::TArray<int32_t>"
     = Return (Some "RC::Unreal::TArray<int32_t>")
  /\ "RC::Unreal::TArray<int32_t>" = "RC::Unreal::TArray<int32_t>".
Proof.
  split; [reflexivity|]. split; [reflexivity|]. split; [reflexivity|].
  exact (convert_type_idempotent_when_decided_by_table
           "TArray<int32>" "RC::Unreal::TArray<int32_t>"
           "RC::Unreal::TArray<int32_t>" eq_refl eq_refl eq_refl).
Defined.

(** C7, as stated, fails: the byte-enum unwrap returns the inner name as
    it is, and converting it again maps it; class-name cleanup strips one
    prefix and suffix at a time. *)
Lemma convert_type_not_idempotent :
  convert_type init "TEnumAsByte<int32>" = Return (Some "int32")
  /\ convert_type init "int32" = Return (Some "int32_t")
  /\ convert_type init "AUFoo_C_C" = Return (Some "UFoo_C")
  /\ convert_type init "UFoo_C" = Return (Some "Foo")
  /\ ~ (forall t r r2,
          convert_type init t = Return (Some r) ->
          convert_type init r = Return (Some r2) ->
          r2 = r).
Proof.
  split; [reflexivity|]. split; [reflexivity|].
  split; [reflexivity|]. split; [reflexivity|].
  intros H.
  specialize (H "TEnumAsByte<int32>" "int32" "int32_t" eq_refl eq_refl).
  discriminate H.
Qed.

(** ** Leading digits *)





(** ** Suffixes of field names *)

(** C3.  On the example line the class-field extractor keeps the GUID and
    numeric suffixes of the name; the struct-field extractor, which calls
    [clean_name], removes them. *)
Theorem class_field_keeps_name_suffix :
  convert_line_to_field init target_actor_line
  = Return (Some (FIELD "0x0120" "AActor*"
                    "TargetActor_2_1A2B3C4D5E6F7890ABCDEF1234567890"))
  /\ convert_struct_field init target_actor_line
     = Return (Some (FIELD "0x0120" "AActor*" "TargetActor"))
  /\ clean_name "TargetActor_2_1A2B3C4D5E6F7890ABCDEF1234567890"
     = "TargetActor"
  /\ FIELD "0x0120" "AActor*" "TargetActor"
     = "    FIELD(0x0120, AActor*, TargetActor);" ++ nl.
Proof. repeat split; vm_compute; reflexivity. Qed.

(** ** Unresolved struct references *)

Lemma struct_scan_no_opening self struct_name lines struct_lines :
  Forall (fun line => contains ("struct " ++ struct_name) line = false) lines ->
  struct_scan self struct_name lines false struct_lines = Return struct_lines.
Proof.
  induction 1 as [|line lines Hline _ IH]; cbn [struct_scan];
    [reflexivity|].
  now rewrite Hline.
Qed.

(** C8, as stated, fails on a sibling file that exists but cannot be read.
    Here the file of the referenced struct exists and yields no line at
    all, so no line contains [struct Fstruct_Vec]; it is not UTF-8 text,
    and [open]/[readlines] (lines 87-88, outside any [try]) raise
    [UnicodeDecodeError], which leaves [process_struct_file], the loop over
    the found structs and [convert_file]. *)
Lemma unreadable_struct_file_raises :
  (exists r,
      latin1_fs "dump" (lower "Fstruct_Vec" ++ ".hpp") = Some r
      /\ forall lines,
           r = Lines lines ->
           Forall (fun line => contains ("struct " ++ "Fstruct_Vec") line = false)
             lines)
  /\ process_struct_file init latin1_fs "Fstruct_Vec" "dump"
     = Raises UnicodeDecodeError
  /\ convert_file_structs init latin1_fs "dump" ["Fstruct_Vec"] []
     = Raises UnicodeDecodeError
  /\ convert_file init latin1_fs "struct Fstruct_Vec Origin; // 0x0010" "dump"
     = Raises UnicodeDecodeError.
Proof.
  split; [|repeat split; vm_compute; reflexivity].
  eexists. split; [vm_compute; reflexivity|].
  intros lines H. discriminate H.
Qed.

(** C8, amended.  When the sibling file of a struct is absent, or exists,
    is read as UTF-8 text and holds no line containing [struct <Name>],
    [process_struct_file] returns the empty list without raising, and the
    loop of [convert_file] leaves the output as it was for that name. *)
Theorem unresolved_struct_is_skipped (self : HPPConverter) (fs : filesystem)
  (struct_name input_dir : string) :
  fs input_dir (lower struct_name ++ ".hpp") = None
  \/ (exists lines,
         fs input_dir (lower struct_name ++ ".hpp") = Some (Lines lines)
         /\ Forall (fun line => contains ("struct " ++ struct_name) line = false)
              lines) ->
  process_struct_file self fs struct_name input_dir = Return []
  /\ (forall rest output_lines,
         convert_file_structs self fs input_dir (struct_name :: rest)
           output_lines
         = convert_file_structs self fs input_dir rest output_lines).
Proof.
  intros H.
  assert (Hp : process_struct_file self fs struct_name input_dir = Return []).
  { unfold process_struct_file. destruct H as [->|[lines [-> Hl]]].
    - reflexivity.
    - now apply struct_scan_no_opening. }
  split; [exact Hp|].
  intros rest output_lines. cbn [convert_file_structs]. now rewrite Hp.
Qed.

Lemma unresolved_struct_is_skipped_witness :
  (stray_fs "dump" (lower "Fstruct_Vec" ++ ".hpp") = None
   \/ exists lines,
        stray_fs "dump" (lower "Fstruct_Vec" ++ ".hpp") = Some (Lines lines)
        /\ Forall (fun line => contains ("struct " ++ "Fstruct_Vec") line = false)
             lines)
  /\ process_struct_file init stray_fs "Fstruct_Vec" "dump" = Return [].
Proof.
  assert (H : stray_fs "dump" (lower "Fstruct_Vec" ++ ".hpp") = None
              \/ exists lines,
                   stray_fs "dump" (lower "Fstruct_Vec" ++ ".hpp")
                   = Some (Lines lines)
                   /\ Forall
                        (fun line =>
                           contains ("struct " ++ "Fstruct_Vec") line = false)
                        lines).
  { right. eexists. split; [reflexivity|]. repeat constructor. }
  split; [exact H|].
  exact (proj1 (unresolved_struct_is_skipped init stray_fs "Fstruct_Vec"
                  "dump" H)).
Defined.

(** * Further properties of the tools *)

(** ** Lines and braces *)

Lemma has_char_count c s : has_char c s = false -> count c s = 0.
Proof.
  unfold has_char. induction s as [|a s IH]; simpl; [reflexivity|].
  rewrite andb_true_r, (Ascii.eqb_sym c a).
  destruct (Ascii.eqb a c); simpl; [discriminate | exact IH].
Qed.

Lemma count_app c s1 s2 : count c (s1 ++ s2) = count c s1 + count c s2.
Proof.
  induction s1 as [|a s1 IH]; simpl; [reflexivity|]. rewrite IH. lia.
Qed.

Lemma list_sum_cons a l : list_sum (a :: l) = a + list_sum l.
Proof. reflexivity. Qed.

Lemma count_join c l :
  Ascii.eqb (ascii_of_nat 10) c = false ->
  count c (join nl l) = list_sum (map (count c) l).
Proof.
  intros Hc. induction l as [|x l IH]; [reflexivity|].
  destruct l as [|y l].
  - simpl. lia.
  - change (join nl (x :: y :: l)) with (x ++ nl ++ join nl (y :: l)).
    rewrite !count_app, IH. cbn [map list_sum fold_right nl count]. rewrite Hc. lia.
Qed.

Lemma has_char_split c sep s :
  has_char c s = false ->
  Forall (fun line => has_char c line = false) (split sep s).
Proof.
  unfold has_char. induction s as [|a s IH]; simpl.
  - intros _. repeat constructor.
  - rewrite andb_true_r. intros H. apply orb_false_elim in H as [Hca Hs].
    specialize (IH Hs).
    destruct (Ascii.eqb a sep).
    + constructor; [reflexivity | exact IH].
    + destruct (split sep s) as [|h t].
      * repeat constructor. simpl. now rewrite Hca.
      * inversion IH; subst. constructor; [|assumption].
        simpl. rewrite andb_true_r, Hca. assumption.
Qed.

Lemma block_scan_without_opening lines brace_count :
  Forall (fun line => has_char "{" line = false) lines ->
  block_scan lines brace_count false [] = None.
Proof.
  intros H. revert brace_count.
  induction H as [|line lines Hline _ IH]; intros bc; cbn [block_scan];
    [reflexivity|].
  rewrite Hline. cbn [orb andb]. apply IH.
Qed.

(** X1.  Text without an opening brace holds no block. *)
Theorem extract_block_none_without_opening (content : string)
  (start_pos : nat) :
  has_char "{" (drop start_pos content) = false ->
  extract_block content start_pos = None.
Proof.
  intros H. apply block_scan_without_opening. now apply has_char_split.
Qed.

Lemma extract_block_none_without_opening_witness :
  has_char "{" (drop 6 "{ } class AMyActor;") = false
  /\ extract_block "{ } class AMyActor;" 6 = None.
Proof.
  split; [reflexivity|].
  exact (extract_block_none_without_opening "{ } class AMyActor;" 6 eq_refl).
Defined.

(** The braces opened minus the braces closed on some lines. *)
Lemma block_scan_some lines :
  forall brace_count found_start block_lines b,
  block_scan lines brace_count found_start block_lines = Some b ->
  exists pre blk post,
    lines = (pre ++ blk ++ post)%list
    /\ b = join nl (block_lines ++ blk)%list
    /\ (if found_start then pre = []
        else Forall (fun line => has_char "{" line = false) pre
             /\ exists first rest,
                  blk = first :: rest /\ has_char "{" first = true)
    /\ (brace_count
        + Z.of_nat (list_sum (map (count "{") (pre ++ blk)))
        - Z.of_nat (list_sum (map (count "}") (pre ++ blk))) = 0)%Z
    /\ (forall blk1 blk2,
           blk = (blk1 ++ blk2)%list -> blk1 <> [] -> blk2 <> [] ->
           (brace_count
            + Z.of_nat (list_sum (map (count "{") (pre ++ blk1)))
            - Z.of_nat (list_sum (map (count "}") (pre ++ blk1))) <> 0)%Z).
Proof.
  induction lines as [|line lines IH]; intros bc fs bl b; cbn [block_scan];
    [discriminate|].
  set (opens := has_char "{" line).
  assert (Hbc :
    (if has_char "}" line
     then ((if opens then bc + Z.of_nat (count "{" line) else bc)
           - Z.of_nat (count "}" line))%Z
     else (if opens then bc + Z.of_nat (count "{" line) else bc)%Z)
    = (bc + Z.of_nat (count "{" line) - Z.of_nat (count "}" line))%Z).
  { unfold opens.
    destruct (has_char "}" line) eqn:Hc, (has_char "{" line) eqn:Ho;
      try rewrite (has_char_count _ _ Hc); try rewrite (has_char_count _ _ Ho);
      lia. }
  rewrite Hbc. clear Hbc.
  set (bc' := (bc + Z.of_nat (count "{" line) - Z.of_nat (count "}" line))%Z).
  destruct (fs || opens) eqn:Hfs'.
  - (* the line belongs to the block *)
    destruct (Z.eqb_spec bc' 0) as [Hz|Hnz]; cbn [andb].
    + intros [= <-]. exists [], [line], lines.
      split; [reflexivity|]. split; [reflexivity|].
      split.
      { destruct fs; [reflexivity|]. split; [constructor|].
        exists line, []. split; [reflexivity|]. exact Hfs'. }
      split.
      { cbn [List.app map]; rewrite ?list_sum_cons. subst bc'. lia. }
      intros blk1 blk2 Hsplit H1 H2. exfalso.
      destruct blk1 as [|x [|y blk1]]; [congruence| |discriminate Hsplit].
      destruct blk2; [congruence | discriminate Hsplit].
    + intros H. apply IH in H as (pre & blk & post & Hl & Hb & Hshape & Hsum & Hmin).
      cbn [fst] in Hshape. subst pre.
      exists [], (line :: blk), post.
      split; [now rewrite Hl|].
      split; [rewrite Hb; unfold append; now rewrite <- app_assoc|].
      split.
      { destruct fs; [reflexivity|]. split; [constructor|].
        exists line, blk. split; [reflexivity|]. exact Hfs'. }
      split.
      { cbn [List.app map] in *; rewrite ?list_sum_cons in *. subst bc'. lia. }
      intros blk1 blk2 Hsplit H1 H2.
      destruct blk1 as [|x blk1]; [congruence|].
      injection Hsplit as <- Hsplit.
      destruct blk1 as [|y blk1].
      * cbn [List.app map]; rewrite ?list_sum_cons. subst bc'. lia.
      * specialize (Hmin (y :: blk1) blk2 Hsplit ltac:(discriminate) H2).
        cbn [List.app map] in *; rewrite ?list_sum_cons in *. subst bc'. lia.
  - (* still before the block *)
    apply orb_false_elim in Hfs' as [-> Hopens]. cbn [andb].
    assert (H0 : count "{" line = 0) by (apply has_char_count; exact Hopens).
    intros H. apply IH in H as (pre & blk & post & Hl & Hb & Hshape & Hsum & Hmin).
    cbn [fst] in Hshape. destruct Hshape as [Hpre Hfirst].
    exists (line :: pre), blk, post.
    split; [now rewrite Hl|]. split; [exact Hb|].
    split; [split; [now constructor | exact Hfirst]|].
    split.
    { cbn [List.app map] in *; rewrite ?list_sum_cons in *. subst bc'. lia. }
    intros blk1 blk2 Hsplit H1 H2.
    specialize (Hmin blk1 blk2 Hsplit H1 H2).
    cbn [List.app map] in *; rewrite ?list_sum_cons in *. subst bc'. lia.
Qed.

Lemma extract_block_lines (content : string) (start_pos : nat) (b : string) :
  extract_block content start_pos = Some b ->
  exists pre blk post,
    split (ascii_of_nat 10) (drop start_pos content)
    = (pre ++ blk ++ post)%list
    /\ b = join nl blk
    /\ Forall (fun line => has_char "{" line = false) pre
    /\ (exists first rest, blk = first :: rest /\ has_char "{" first = true)
    /\ count "{" (join nl (pre ++ blk)) = count "}" (join nl (pre ++ blk))
    /\ (forall blk1 blk2,
           blk = (blk1 ++ blk2)%list -> blk1 <> [] -> blk2 <> [] ->
           count "{" (join nl (pre ++ blk1))
           <> count "}" (join nl (pre ++ blk1))).
Proof.
  intros H. apply block_scan_some in H
    as (pre & blk & post & Hl & Hb & [Hpre Hfirst] & Hsum & Hmin).
  exists pre, blk, post.
  split; [exact Hl|]. split; [exact Hb|]. split; [exact Hpre|].
  split; [exact Hfirst|].
  split.
  - rewrite !count_join by reflexivity. lia.
  - intros blk1 blk2 Hs H1 H2. specialize (Hmin blk1 blk2 Hs H1 H2).
    rewrite !count_join by reflexivity. lia.
Qed.

(** X2.  A block returned by [extract_block] is a run of whole lines of
    the text from [start_pos] on: it starts at the first line with an
    opening brace and ends at the first line from there on at which the
    braces seen since [start_pos] balance. *)
Theorem extract_block_span (content : string) (start_pos : nat) (b : string) :
  extract_block content start_pos = Some b ->
  exists pre blk post,
    split (ascii_of_nat 10) (drop start_pos content)
    = (pre ++ blk ++ post)%list
    /\ b = join nl blk
    /\ Forall (fun line => has_char "{" line = false) pre
    /\ (exists first rest, blk = first :: rest /\ has_char "{" first = true)
    /\ count "{" (join nl (pre ++ blk)) = count "}" (join nl (pre ++ blk))
    /\ (forall blk1 blk2,
           blk = (blk1 ++ blk2)%list -> blk1 <> [] -> blk2 <> [] ->
           count "{" (join nl (pre ++ blk1))
           <> count "}" (join nl (pre ++ blk1))).
Proof. apply extract_block_lines. Qed.

Lemma extract_block_span_witness :
  extract_block ("class A {" ++ nl ++ "  int x; }" ++ nl ++ "tail") 0
  = Some ("class A {" ++ nl ++ "  int x; }")
  /\ exists pre blk post,
       split (ascii_of_nat 10)
         (drop 0 ("class A {" ++ nl ++ "  int x; }" ++ nl ++ "tail"))
       = (pre ++ blk ++ post)%list
       /\ "class A {" ++ nl ++ "  int x; }" = join nl blk
       /\ Forall (fun line => has_char "{" line = false) pre
       /\ (exists first rest,
              blk = first :: rest /\ has_char "{" first = true)
       /\ count "{" (join nl (pre ++ blk)) = count "}" (join nl (pre ++ blk))
       /\ (forall blk1 blk2,
              blk = (blk1 ++ blk2)%list -> blk1 <> [] -> blk2 <> [] ->
              count "{" (join nl (pre ++ blk1))
              <> count "}" (join nl (pre ++ blk1))).
Proof.
  split; [reflexivity|].
  exact (extract_block_span
           ("class A {" ++ nl ++ "  int x; }" ++ nl ++ "tail") 0
           ("class A {" ++ nl ++ "  int x; }") eq_refl).
Defined.

(** X3.  When the line at [start_pos] already holds the opening brace, the
    block returned has as many opening as closing braces. *)
Theorem extract_block_balanced (content : string) (start_pos : nat)
  (b first : string) (rest : list string) :
  split (ascii_of_nat 10) (drop start_pos content) = first :: rest ->
  has_char "{" first = true ->
  extract_block content start_pos = Some b ->
  count "{" b = count "}" b.
Proof.
  intros Hsplit Hfirst H.
  apply extract_block_lines in H
    as (pre & blk & post & Hl & Hb & Hpre & _ & Hsum & _).
  destruct pre as [|p pre].
  - now rewrite Hb.
  - exfalso. rewrite Hsplit in Hl. injection Hl as <- _.
    inversion Hpre; subst. congruence.
Qed.

Lemma extract_block_balanced_witness :
  split (ascii_of_nat 10)
    (drop 4 ("// x" ++ "class A { {" ++ nl ++ "} }" ++ nl ++ "}"))
  = ["class A { {"; "} }"; "}"]
  /\ has_char "{" "class A { {" = true
  /\ extract_block ("// x" ++ "class A { {" ++ nl ++ "} }" ++ nl ++ "}") 4
     = Some ("class A { {" ++ nl ++ "} }")
  /\ count "{" ("class A { {" ++ nl ++ "} }")
     = count "}" ("class A { {" ++ nl ++ "} }").
Proof.
  split; [reflexivity|]. split; [reflexivity|]. split; [reflexivity|].
  exact (extract_block_balanced
           ("// x" ++ "class A { {" ++ nl ++ "} }" ++ nl ++ "}") 4
           ("class A { {" ++ nl ++ "} }") "class A { {" ["} }"; "}"]
           eq_refl eq_refl eq_refl).
Defined.

(** ** Categories of declarations *)

Lemma first_category_range categories content :
  In (first_category categories content) ("Game" :: map fst categories).
Proof.
  induction categories as [|[category keywords] rest IH]; cbn [first_category].
  - now left.
  - destruct (existsb _ keywords).
    + right. now left.
    + destruct IH as [IH|IH]; [now left | right; now right].
Qed.

Lemma class_group_name content :
  determine_module content <> "Enums" /\ determine_module content <> "Structs".
Proof.
  pose proof (first_category_range module_categories content) as H.
  fold (determine_module content) in H.
  cbn [map fst module_categories] in H.
  split; intros He; rewrite He in H; simpl in H; intuition discriminate.
Qed.

(** X4.  [determine_module] returns one of seven names, and never the
    name of the enum or struct group: a class body cannot land in the
    group of the enums or of the structs. *)
Theorem determine_module_range (content : string) :
  In (determine_module content)
    ["Game"; "Gameplay"; "UI"; "Props"; "Systems"; "Audio"; "Physics"]
  /\ determine_module content <> "Enums"
  /\ determine_module content <> "Structs".
Proof.
  pose proof (first_category_range module_categories content) as H.
  fold (determine_module content) in H.
  split; [exact H|].
  cbn [map fst module_categories] in H.
  split; intros He; rewrite He in H; simpl in H; intuition discriminate.
Qed.

Lemma first_category_lower categories a b :
  lower a = lower b ->
  first_category categories a = first_category categories b.
Proof.
  intros H. induction categories as [|[category keywords] rest IH];
    cbn [first_category]; [reflexivity|].
  now rewrite H, IH.
Qed.

Lemma lower_char_idempotent c : lower_char (lower_char c) = lower_char c.
Proof.
  destruct c as [[] [] [] [] [] [] [] []]; vm_compute; reflexivity.
Qed.

Lemma lower_idempotent s : lower (lower s) = lower s.
Proof.
  induction s as [|c s IH]; simpl; [reflexivity|].
  now rewrite lower_char_idempotent, IH.
Qed.

(** X5.  The category does not depend on letter case: two bodies with the
    same lower-casing get the same category, and so does a body and its
    lower-casing. *)
Theorem determine_module_ignores_case (a b : string) :
  lower a = lower b ->
  determine_module a = determine_module b
  /\ determine_module (lower a) = determine_module a.
Proof.
  intros H. split.
  - now apply first_category_lower.
  - apply first_category_lower, lower_idempotent.
Qed.

Lemma determine_module_ignores_case_witness :
  lower "class APLAYERPawn {" = lower "class APlayerPawn {"
  /\ determine_module "class APLAYERPawn {"
     = determine_module "class APlayerPawn {".
Proof.
  split; [reflexivity|].
  exact (proj1 (determine_module_ignores_case "class APLAYERPawn {"
                  "class APlayerPawn {" eq_refl)).
Defined.

(** ** Identifiers and file names of the consolidator *)

Lemma clean_identifier_cons c rest :
  clean_identifier (String c rest)
  = if isdigit c then String "C" (String c rest) else String c rest.
Proof. unfold clean_identifier. cbn. now destruct (isdigit c). Qed.

(** X6.  [clean_identifier] never returns a name that starts with a digit,
    and cleaning a cleaned name changes nothing. *)
Theorem clean_identifier_no_leading_digit (name : string) :
  match head (clean_identifier name) with
  | Some c => isdigit c = false
  | None => name = EmptyString
  end
  /\ clean_identifier (clean_identifier name) = clean_identifier name.
Proof.
  destruct name as [|c rest]; [split; reflexivity|].
  rewrite clean_identifier_cons.
  destruct (isdigit c) eqn:Hd.
  - split; reflexivity.
  - split; [exact Hd|]. now rewrite clean_identifier_cons, Hd.
Qed.

Lemma startswith_app p s : startswith p (p ++ s) = true.
Proof.
  induction p as [|a p IH]; simpl; [reflexivity|].
  now rewrite Ascii.eqb_refl, IH.
Qed.

Lemma contains_app sub pre post : contains sub (pre ++ sub ++ post) = true.
Proof.
  induction pre as [|a pre IH].
  - simpl. destruct (sub ++ post) eqn:He; simpl; rewrite <- He;
      now rewrite startswith_app.
  - cbn [String.append contains]. rewrite IH. apply orb_true_r.
Qed.

(** X7.  A file is skipped as soon as its stem contains the name of an
    engine module anywhere, and the test [base_name == 'Engine'] adds
    nothing: the result is the containment test or the [_enums] suffix. *)
Theorem should_skip_file_by_containment (base_name : string) :
  should_skip_file base_name
  = existsb (fun module => contains module base_name) engine_modules
    || endswith "_enums" base_name
  /\ (forall module pre post,
         In module engine_modules ->
         should_skip_file (pre ++ module ++ post) = true).
Proof.
  split.
  - unfold should_skip_file.
    destruct (existsb (fun module => contains module base_name)
                engine_modules) eqn:He; [reflexivity|].
    destruct (String.eqb_spec base_name "Engine") as [->|Hne].
    + discriminate He.
    + cbn [orb]. now destruct (endswith "_enums" base_name).
  - intros module pre post Hin. unfold should_skip_file.
    assert (He : existsb (fun m => contains m (pre ++ module ++ post))
                   engine_modules = true).
    { apply existsb_exists. exists module. split; [exact Hin|].
      apply contains_app. }
    now rewrite He.
Qed.

(** ** Groups of enums and structs, and the deadlock arm *)

Lemma ltb_irreflexive a : ltb a a = false.
Proof.
  induction a as [|c a IH]; simpl; [reflexivity|].
  now rewrite N.ltb_irrefl.
Qed.

Lemma ltb_asymmetric a b : ltb a b = true -> ltb b a = false.
Proof.
  revert b. induction a as [|x a IH]; intros [|y b]; simpl; try discriminate;
    try reflexivity.
  destruct (N.ltb_spec (code x) (code y)), (N.ltb_spec (code y) (code x));
    try discriminate; try reflexivity; try lia.
  apply IH.
Qed.

Lemma item_ltb_asymmetric a b : item_ltb a b = true -> item_ltb b a = false.
Proof.
  unfold item_ltb. intros H. apply orb_true_iff in H as [H|H].
  - rewrite (ltb_asymmetric _ _ H). simpl.
    destruct (String.eqb_spec (fst b) (fst a)) as [He|_]; [|reflexivity].
    rewrite He, ltb_irreflexive in H. discriminate.
  - apply andb_true_iff in H as [He Hs]. apply String.eqb_eq in He.
    rewrite He, ltb_irreflexive, String.eqb_refl, (ltb_asymmetric _ _ Hs).
    reflexivity.
Qed.

Lemma insert_sorted x l : Sorted item_le l -> Sorted item_le (insert x l).
Proof.
  induction 1 as [|y l Hs IH Hhd]; simpl.
  - repeat constructor.
  - destruct (item_ltb y x) eqn:Hyx.
    + constructor; [exact IH|].
      destruct l as [|z l]; simpl.
      * constructor. now apply item_ltb_asymmetric.
      * destruct (item_ltb z x); constructor.
        -- now inversion Hhd.
        -- now apply item_ltb_asymmetric.
    + constructor; [now constructor|]. constructor. exact Hyx.
Qed.

Lemma sorted_sorted l : Sorted item_le (sorted l).
Proof.
  induction l as [|x l IH]; simpl; [constructor | now apply insert_sorted].
Qed.

Lemma item_le_name a b : item_le a b -> name_le (fst a) (fst b).
Proof.
  unfold item_le, name_le, item_ltb. intros H.
  now apply orb_false_elim in H as [H _].
Qed.

Lemma sorted_names l : Sorted name_le (map fst (sorted l)).
Proof.
  pose proof (sorted_sorted l) as H.
  induction H as [|x l' Hs IH Hhd]; simpl; constructor; [exact IH|].
  destruct Hhd as [|y l' Hxy]; simpl; constructor.
  now apply item_le_name.
Qed.

Lemma get_append_to oc k x k' :
  get (append_to oc k x) k'
  = if String.eqb k k'
    then Some (append match get oc k with Some v => v | None => [] end x)
    else get oc k'.
Proof.
  induction oc as [|[k0 v] oc IH]; cbn [append_to get].
  - destruct (String.eqb k k'); reflexivity.
  - destruct (String.eqb_spec k0 k) as [->|Hne]; cbn [get].
    + destruct (String.eqb_spec k k') as [->|Hne']; reflexivity.
    + rewrite IH. destruct (String.eqb_spec k k') as [->|Hne'].
      * destruct (String.eqb_spec k0 k'); [contradiction | reflexivity].
      * reflexivity.
Qed.

Lemma get_append_to_other oc k x k' :
  k <> k' -> get (append_to oc k x) k' = get oc k'.
Proof.
  intros H. rewrite get_append_to.
  destruct (String.eqb_spec k k'); [contradiction | reflexivity].
Qed.

Lemma get_add_all_other group d oc k :
  group <> k -> get (add_all group d oc) k = get oc k.
Proof.
  intros H. unfold add_all. generalize (sorted d) as l. intros l. revert oc.
  induction l as [|x l IH]; intros oc; simpl; [reflexivity|].
  rewrite IH. now apply get_append_to_other.
Qed.

Lemma get_add_all_fresh group d oc :
  get oc group = None ->
  get (add_all group d oc) group
  = match d with
    | [] => None
    | _ :: _ => Some (map snd (sorted d))
    end.
Proof.
  intros Hfresh. unfold add_all.
  assert (Hgen : forall (l : list (string * string)) oc' acc,
    get oc' group = Some acc ->
    get (fold_left (fun oc0 item => append_to oc0 group (snd item)) l oc')
      group = Some (acc ++ map snd l)%list).
  { induction l as [|x l IH]; intros oc' acc Hacc; cbn [fold_left map].
    - rewrite app_nil_r. exact Hacc.
    - rewrite (IH _ (append acc (snd x))).
      + unfold append. now rewrite <- app_assoc.
      + now rewrite get_append_to, String.eqb_refl, Hacc. }
  destruct d as [|x d]; [exact Hfresh|].
  destruct (sorted (x :: d)) as [|y l] eqn:Hs.
  - exfalso. pose proof (sorted_perm (x :: d)) as Hp. rewrite Hs in Hp.
    now apply Permutation_nil in Hp.
  - cbn [fold_left]. rewrite (Hgen _ _ (append [] (snd y))).
    + reflexivity.
    + now rewrite get_append_to, String.eqb_refl, Hfresh.
Qed.

Lemma fold_emit_stuck_group pass l st k :
  (forall content, determine_module content <> k) ->
  get (ordered_content (fold_left (emit_stuck pass) l st)) k
  = get (ordered_content st) k.
Proof.
  intros Hk. revert st. induction l as [|x l IH]; intros st; simpl;
    [reflexivity|].
  rewrite IH. simpl. now apply get_append_to_other.
Qed.

Lemma schedule_group deps fuel st st' k :
  (forall content, determine_module content <> k) ->
  schedule deps fuel st = Return st' ->
  get (ordered_content st') k = get (ordered_content st) k.
Proof.
  intros Hk. revert fuel st st'.
  apply (schedule_ind deps
           (fun st st' =>
              get (ordered_content st') k = get (ordered_content st) k)).
  - reflexivity.
  - intros st n c st' _ IH. rewrite IH. simpl.
    now apply get_append_to_other.
  - intros st _ _. unfold flush. simpl. now apply fold_emit_stuck_group.
Qed.

(** X8.  Whatever the classes are, the group [Enums] of the result holds the
    enum bodies and the group [Structs] the struct bodies, each in
    ascending order of name; an empty pool gives no group. *)
Theorem enum_and_struct_groups_sorted (self : HeaderConsolidator)
  (st : emitter) :
  sort_run self = Return st ->
  get (ordered_content st) "Enums"
  = match enums self with
    | [] => None
    | _ :: _ => Some (map snd (sorted (enums self)))
    end
  /\ get (ordered_content st) "Structs"
     = match structs self with
       | [] => None
       | _ :: _ => Some (map snd (sorted (structs self)))
       end
  /\ Sorted name_le (map fst (sorted (enums self)))
  /\ Sorted name_le (map fst (sorted (structs self)))
  /\ Permutation (sorted (enums self)) (enums self)
  /\ Permutation (sorted (structs self)) (structs self).
Proof.
  intros Hrun. unfold sort_run in Hrun.
  split; [|split].
  - rewrite (schedule_group _ _ _ _ "Enums"
               (fun c => proj1 (class_group_name c)) Hrun).
    cbn [start ordered_content].
    rewrite get_add_all_other by discriminate.
    now apply get_add_all_fresh.
  - rewrite (schedule_group _ _ _ _ "Structs"
               (fun c => proj2 (class_group_name c)) Hrun).
    cbn [start ordered_content].
    apply get_add_all_fresh.
    now rewrite get_add_all_other by discriminate.
  - repeat split; auto using sorted_names, sorted_perm.
Qed.

Lemma enum_and_struct_groups_sorted_witness :
  sort_run cyclic_pool = Return cyclic_run
  /\ get (ordered_content cyclic_run) "Structs"
     = Some ["struct Fstruct_a { }"; "struct Fstruct_b { }"].
Proof.
  split; [reflexivity|].
  exact (proj1 (proj2 (enum_and_struct_groups_sorted cyclic_pool cyclic_run
                         eq_refl))).
Defined.

Lemma first_ready_none items cls proc :
  first_ready items cls proc = None ->
  forall n ds c,
    In (n, ds) items -> get cls n = Some c -> subset ds proc = false.
Proof.
  induction items as [|[k ds0] items IH]; cbn [first_ready].
  - intros _ n ds c [].
  - destruct (get cls k) as [content|] eqn:Hget.
    + destruct (subset ds0 proc) eqn:Hsub; [discriminate|].
      intros H n ds c [[= -> ->]|Hin] Hg; [exact Hsub | eauto].
    + intros H n ds c [[= -> ->]|Hin] Hg; [congruence | eauto].
Qed.

Lemma subset_false a b :
  subset a b = false -> exists x, In x a /\ ~ In x b.
Proof.
  unfold subset. induction a as [|x a IH]; simpl; [discriminate|].
  destruct (mem x b) eqn:Hm; simpl.
  - intros H. destruct (IH H) as [y [Hy Hn]]. eauto.
  - intros _. exists x. split; [now left|].
    intros Hin. apply mem_In in Hin. congruence.
Qed.

Lemma key_get {V : Type} (d : dict V) k :
  In k (map fst d) -> exists v, get d k = Some v.
Proof.
  induction d as [|[k' v'] d IH]; simpl; [tauto|].
  destruct (String.eqb_spec k' k) as [->|Hne]; [eauto|].
  intros [?|?]; [contradiction | auto].
Qed.

Lemma filter_flushed_stuck pass l :
  filter flushed (map (stuck_emission pass) l) = map (stuck_emission pass) l.
Proof. induction l as [|x l IH]; simpl; [reflexivity | now rewrite IH]. Qed.

Lemma map_name_stuck pass l :
  map em_name (map (stuck_emission pass) l) = map fst l.
Proof. induction l as [|x l IH]; simpl; [reflexivity | now rewrite IH]. Qed.

Lemma schedule_flush deps fuel st st' :
  schedule deps fuel st = Return st' ->
  filter flushed (log st) = [] ->
  Permutation (map fst (pending st'))
    (map em_name (filter flushed (log st')))
  /\ Sorted name_le (map em_name (filter flushed (log st')))
  /\ (forall e ds,
         In e (log st') -> flushed e = true ->
         In (em_name e, ds) deps ->
         exists b, In b ds /\ ~ In b (processed st')).
Proof.
  revert fuel st st'.
  apply (schedule_ind deps
           (fun st st' =>
              filter flushed (log st) = [] ->
              Permutation (map fst (pending st'))
                (map em_name (filter flushed (log st')))
              /\ Sorted name_le (map em_name (filter flushed (log st')))
              /\ (forall e ds,
                     In e (log st') -> flushed e = true ->
                     In (em_name e, ds) deps ->
                     exists b, In b ds /\ ~ In b (processed st')))).
  - intros st Hp Hf. rewrite Hp, Hf. simpl.
    split; [constructor|]. split; [constructor|].
    intros e ds Hin He _. exfalso.
    assert (Hin' : In e (filter flushed (log st)))
      by (apply filter_In; auto).
    now rewrite Hf in Hin'.
  - intros st n c st' _ IH Hf. apply IH.
    unfold emit_ready, append. cbn [log]. rewrite filter_app, Hf. reflexivity.
  - intros st Hne Hnone Hf.
    destruct (flush_spec st) as (Hp & Hpr & _ & Hlog & _).
    rewrite Hp, Hpr, Hlog, filter_app, Hf, filter_flushed_stuck.
    cbn [List.app]. rewrite map_name_stuck.
    split; [symmetry; apply Permutation_map, sorted_perm|].
    split; [apply sorted_names|].
    intros e ds Hin He Hds.
    apply in_app_or in Hin as [Hin|Hin].
    + exfalso. assert (Hin' : In e (filter flushed (log st)))
        by (apply filter_In; auto).
      now rewrite Hf in Hin'.
    + apply in_map_iff in Hin as [item [<- Hitem]]. cbn [stuck_emission em_name] in Hds.
      assert (Hkey : In (fst item) (map fst (pending st))).
      { apply in_map. eapply Permutation_in; [apply sorted_perm | exact Hitem]. }
      apply key_get in Hkey as [v Hv].
      apply subset_false. eapply first_ready_none; eauto.
Qed.

(** X9.  The deadlock arm places a class only if it is stuck: a class it
    flushed has, in its dependency set, a name the ready arm never
    processed. *)
Theorem flushed_class_is_stuck (self : HeaderConsolidator) (st : emitter)
  (e : emission) (ds : list string) :
  sort_run self = Return st ->
  In e (log st) -> em_branch e = Deadlock ->
  get (dependencies self) (em_name e) = Some ds ->
  exists b, In b ds /\ ~ In b (processed st).
Proof.
  intros Hrun Hin Hb Hds.
  destruct (schedule_flush _ _ _ _ Hrun eq_refl) as (_ & _ & H).
  apply (H e ds Hin); [unfold flushed; now rewrite Hb | now apply get_In].
Qed.

Lemma flushed_class_is_stuck_witness :
  sort_run cyclic_pool = Return cyclic_run
  /\ In emission_A (log cyclic_run) /\ em_branch emission_A = Deadlock
  /\ get (dependencies cyclic_pool) (em_name emission_A) = Some ["B"]
  /\ exists b, In b ["B"] /\ ~ In b (processed cyclic_run).
Proof.
  assert (HA : In emission_A (log cyclic_run)) by (simpl; auto).
  split; [reflexivity|]. split; [exact HA|]. split; [reflexivity|].
  split; [reflexivity|].
  exact (flushed_class_is_stuck cyclic_pool cyclic_run emission_A ["B"]
           eq_refl HA eq_refl eq_refl).
Defined.

(** X10.  On return the pool [self.classes] holds exactly the classes the
    deadlock arm flushed, which it appended in ascending order of name;
    without a deadlock the pool is left empty. *)
Theorem pool_after_sort_declarations (self : HeaderConsolidator)
  (st : emitter) :
  sort_run self = Return st ->
  Permutation (map fst (pending st)) (map em_name (filter flushed (log st)))
  /\ Sorted name_le (map em_name (filter flushed (log st)))
  /\ (filter flushed (log st) = [] -> pending st = []).
Proof.
  intros Hrun.
  destruct (schedule_flush _ _ _ _ Hrun eq_refl) as (Hp & Hs & _).
  split; [exact Hp|]. split; [exact Hs|].
  intros Hnone. rewrite Hnone in Hp. simpl in Hp.
  apply Permutation_sym, Permutation_nil in Hp.
  now apply map_eq_nil in Hp.
Qed.

Lemma pool_after_sort_declarations_witness :
  sort_run cyclic_pool = Return cyclic_run
  /\ Permutation (map fst (pending cyclic_run))
       (map em_name (filter flushed (log cyclic_run))).
Proof.
  split; [reflexivity|].
  exact (proj1 (pool_after_sort_declarations cyclic_pool cyclic_run eq_refl)).
Defined.

(** ** Strings *)

Lemma length_app s1 s2 :
  String.length (s1 ++ s2) = String.length s1 + String.length s2.
Proof. induction s1 as [|c s1 IH]; simpl; [reflexivity | now rewrite IH]. Qed.

Lemma substring_prefix s1 s2 :
  substring 0 (String.length s1) (s1 ++ s2) = s1.
Proof.
  induction s1 as [|c s1 IH]; simpl.
  - now destruct s2.
  - now rewrite IH.
Qed.

Lemma substring_whole s : substring 0 (String.length s) s = s.
Proof. induction s as [|c s IH]; simpl; [reflexivity | now rewrite IH]. Qed.

Lemma substring_skip s1 s2 n :
  substring (String.length s1) n (s1 ++ s2) = substring 0 n s2.
Proof. induction s1 as [|c s1 IH]; simpl; [reflexivity | exact IH]. Qed.

Lemma endswith_app pre p : endswith p (pre ++ p) = true.
Proof.
  unfold endswith. rewrite length_app.
  replace (String.length pre + String.length p - String.length p)
    with (String.length pre) by lia.
  rewrite substring_skip, substring_whole, String.eqb_refl.
  rewrite andb_true_r. apply Nat.leb_le. lia.
Qed.

Lemma slice_strip_ends c mid a b :
  slice 1 (-2) (String c (mid ++ String a (String b EmptyString))) = mid.
Proof.
  unfold slice, clamp. cbn [String.length]. rewrite length_app.
  cbn [String.length].
  replace (1 <? 0)%Z with false by reflexivity.
  replace (-2 <? 0)%Z with true by reflexivity.
  replace (Z.to_nat (Z.min 1 (Z.of_nat (S (String.length mid + 2))))) with 1
    by lia.
  replace (Z.to_nat (Z.max (-2 + Z.of_nat (S (String.length mid + 2))) 0))
    with (S (String.length mid)) by lia.
  cbn [substring]. replace (S (String.length mid) - 1) with (String.length mid)
    by lia.
  apply substring_prefix.
Qed.

(** ** Class names *)

(** X11.  A class name of the form [A<mid>_C] or [U<mid>_C] that has no
    engine-core prefix is cleaned to [<mid>], whatever [<mid>] is. *)
Theorem clean_class_name_strips_affixes (c : ascii) (mid : string) :
  c = "A"%char \/ c = "U"%char ->
  startswith_any core_prefixes (String c (mid ++ "_C")) = false ->
  clean_class_name (String c (mid ++ "_C")) = mid.
Proof.
  intros Hc Hcore. unfold clean_class_name. rewrite Hcore.
  change (truthy (String c (mid ++ "_C"))) with true. cbn [negb].
  assert (Hd : head_isdigit (String c (mid ++ "_C")) = false)
    by (destruct Hc as [-> | ->]; reflexivity).
  rewrite Hd.
  assert (He : endswith "_C" (String c (mid ++ "_C")) = true)
    by apply (endswith_app (String c mid) "_C").
  rewrite He.
  destruct Hc as [-> | ->]; cbn [startswith Ascii.eqb Bool.eqb andb];
    apply slice_strip_ends.
Qed.

Lemma clean_class_name_strips_affixes_witness :
  ("U"%char = "A"%char \/ "U"%char = "U"%char)
  /\ startswith_any core_prefixes (String "U" ("MyItem" ++ "_C")) = false
  /\ clean_class_name (String "U" ("MyItem" ++ "_C")) = "MyItem".
Proof.
  split; [right; reflexivity|]. split; [reflexivity|].
  exact (clean_class_name_strips_affixes "U" "MyItem"
           (or_intror eq_refl) eq_refl).
Defined.

(** ** Greedy repetition *)

Lemma append_empty s : s ++ "" = s.
Proof. induction s as [|c s IH]; simpl; [reflexivity | now rewrite IH]. Qed.

Lemma lit_app {R : Type} l s caps (k : @K R) :
  lit false l (l ++ s) caps k = k s caps.
Proof.
  induction l as [|a l IH]; simpl; [reflexivity|].
  unfold test, one. now rewrite Ascii.eqb_refl.
Qed.

(** Once the continuation accepts after some repetitions, it accepts
    after more of them: the longest run wins. *)
Lemma star_commits {R : Type} p u s caps (k : @K R) r :
  all_chars p u = true ->
  star false p s caps k = Some r ->
  star false p (u ++ s) caps k = Some r.
Proof.
  intros Hu Hs. induction u as [|a u IH]; [exact Hs|].
  cbn [all_chars] in Hu. apply andb_prop in Hu as [Ha Hu].
  cbn [String.append star test]. rewrite Ha, (IH Hu). reflexivity.
Qed.

Lemma star_fails {R : Type} p q s caps (k : @K R) :
  all_chars q s = true ->
  (forall s', all_chars q s' = true -> k s' caps = None) ->
  star false p s caps k = None.
Proof.
  intros Hs Hk. induction s as [|a s IH]; cbn [star].
  - now apply Hk.
  - pose proof Hs as Hs'. cbn [all_chars] in Hs'.
    apply andb_prop in Hs' as [_ Hs'].
    rewrite (IH Hs'), (Hk _ Hs). now destruct (test false p a).
Qed.

Lemma search_from_here ic total r s m :
  at_pos ic total r s = Some m -> search_from ic total r s = Some m.
Proof. intros H. destruct s; simpl; now rewrite H. Qed.

Lemma no_newline_dot s :
  has_char (ascii_of_nat 10) s = false -> all_chars dot s = true.
Proof.
  unfold has_char. induction s as [|a s IH]; simpl; [reflexivity|].
  rewrite andb_true_r. intros H. apply orb_false_elim in H as [Ha Hs].
  rewrite (IH Hs), andb_true_r. unfold dot, is_code, code.
  destruct (N.eqb_spec (N_of_ascii a) 10) as [He|]; [|reflexivity].
  apply (f_equal ascii_of_N) in He. rewrite ascii_N_embedding in He.
  subst a. discriminate Ha.
Qed.

(** [re.search(r'W<(.+)>', 'W<' + inner + '>').group(1)] is [inner]. *)
Lemma search_generic w inner :
  inner <> EmptyString ->
  has_char (ascii_of_nat 10) inner = false ->
  search_group1 (generic_re w) ((w ++ "<") ++ inner ++ ">") = Return inner.
Proof.
  intros Hne Hnl. destruct inner as [|c inner]; [congruence|].
  apply no_newline_dot in Hnl. cbn [all_chars] in Hnl.
  apply andb_prop in Hnl as [Hc Hrest].
  unfold search_group1, re_search.
  rewrite (search_from_here _ _ _ _ ("", [String c inner])); [reflexivity|].
  unfold at_pos, generic_re. cbn [run]. rewrite lit_app.
  cbn [String.append test]. rewrite Hc.
  apply star_commits; [exact Hrest|].
  cbn. rewrite length_app. cbn [String.length].
  replace (String.length inner + 1 - 0) with (S (String.length inner)) by lia.
  now rewrite substring_prefix.
Qed.

(** ** Wrappers *)

(** X12.  A [TArray] or [TSubclassOf] around a non-empty one-line argument
    converts to the namespaced wrapper around the conversion of the
    argument, and to [None] (or an exception) exactly when the argument
    does. *)
Theorem wrapper_converts_argument (w inner : string) :
  w = "TArray" \/ w = "TSubclassOf" ->
  inner <> EmptyString ->
  has_char (ascii_of_nat 10) inner = false ->
  is_ignored init (w ++ "<" ++ inner ++ ">") = false ->
  convert_type init (w ++ "<" ++ inner ++ ">")
  = (converted_inner <- convert_type init inner ;;
     Return (rewrap w converted_inner)).
Proof.
  intros Hw Hne Hnl Hign.
  rewrite convert_type_unfold. unfold convert_type_body. rewrite Hign.
  destruct Hw as [-> | ->].
  - rewrite class_prefix_absent by reflexivity.
    change ("TArray" ++ "<" ++ inner ++ ">")
      with (("TArray" ++ "<") ++ inner ++ ">").
    rewrite (startswith_app "TArray<"), search_generic by assumption.
    reflexivity.
  - rewrite class_prefix_absent by reflexivity.
    change ("TSubclassOf" ++ "<" ++ inner ++ ">")
      with (("TSubclassOf" ++ "<") ++ inner ++ ">").
    rewrite (startswith_app "TSubclassOf<"), search_generic by assumption.
    reflexivity.
Qed.

Lemma wrapper_converts_argument_witness :
  ("TArray" = "TArray" \/ "TArray" = "TSubclassOf")
  /\ "TSubclassOf<UMyItem_C>" <> EmptyString
  /\ has_char (ascii_of_nat 10) "TSubclassOf<UMyItem_C>" = false
  /\ is_ignored init ("TArray" ++ "<" ++ "TSubclassOf<UMyItem_C>" ++ ">")
     = false
  /\ convert_type init ("TArray" ++ "<" ++ "TSubclassOf<UMyItem_C>" ++ ">")
     = (converted_inner <- convert_type init "TSubclassOf<UMyItem_C>" ;;
        Return (rewrap "TArray" converted_inner)).
Proof.
  assert (Hne : "TSubclassOf<UMyItem_C>" <> EmptyString) by discriminate.
  split; [left; reflexivity|]. split; [exact Hne|].
  split; [reflexivity|]. split; [reflexivity|].
  exact (wrapper_converts_argument "TArray" "TSubclassOf<UMyItem_C>"
           (or_introl eq_refl) Hne eq_refl eq_refl).
Defined.

Lemma append_assoc s1 s2 s3 : (s1 ++ s2) ++ s3 = s1 ++ s2 ++ s3.
Proof. induction s1 as [|c s1 IH]; simpl; [reflexivity | now rewrite IH]. Qed.

Lemma rstrip_keeps_end c s x :
  Ascii.eqb x c = false ->
  rstrip c (s ++ String x EmptyString) = s ++ String x EmptyString.
Proof.
  intros Hx. induction s as [|a s IH]; simpl.
  - now rewrite Hx.
  - rewrite IH. now destruct s.
Qed.

(** X13.  A [TEnumAsByte] around a non-empty one-line argument converts to
    the argument as it is written, without converting it. *)
Theorem byte_enum_unwraps (inner : string) :
  inner <> EmptyString ->
  has_char (ascii_of_nat 10) inner = false ->
  is_ignored init ("TEnumAsByte<" ++ inner ++ ">") = false ->
  convert_type init ("TEnumAsByte<" ++ inner ++ ">") = Return (Some inner).
Proof.
  intros Hne Hnl Hign.
  rewrite convert_type_unfold. unfold convert_type_body. rewrite Hign.
  rewrite class_prefix_absent by reflexivity.
  assert (Hstrip : rstrip "*" ("TEnumAsByte<" ++ inner ++ ">")
                   = "TEnumAsByte<" ++ inner ++ ">").
  { rewrite <- append_assoc. now apply rstrip_keeps_end. }
  rewrite Hstrip.
  change ("TEnumAsByte<" ++ inner ++ ">")
    with (("TEnumAsByte" ++ "<") ++ inner ++ ">").
  rewrite (startswith_app "TEnumAsByte<"), search_generic by assumption.
  reflexivity.
Qed.

Lemma byte_enum_unwraps_witness :
  "int32" <> EmptyString
  /\ has_char (ascii_of_nat 10) "int32" = false
  /\ is_ignored init ("TEnumAsByte<" ++ "int32" ++ ">") = false
  /\ convert_type init ("TEnumAsByte<" ++ "int32" ++ ">")
     = Return (Some "int32").
Proof.
  assert (Hne : "int32" <> EmptyString) by discriminate.
  split; [exact Hne|]. split; [reflexivity|]. split; [reflexivity|].
  exact (byte_enum_unwraps "int32" Hne eq_refl eq_refl).
Defined.

(** ** Pointers to mapped types *)

Lemma rstrip_all c n : rstrip c (repeat_char c n) = EmptyString.
Proof.
  induction n as [|n IH]; simpl; [reflexivity|].
  now rewrite IH, Ascii.eqb_refl.
Qed.

Lemma rstrip_repeat c s n :
  rstrip c s = s -> rstrip c (s ++ repeat_char c n) = s.
Proof.
  induction s as [|a s IH].
  - intros _. apply rstrip_all.
  - cbn [String.append rstrip].
    destruct (String.eqb (rstrip c s) "" && Ascii.eqb a c)%bool eqn:Hd;
      [discriminate|].
    intros [= Hs]. rewrite (IH Hs). rewrite Hs in Hd. now rewrite Hd.
Qed.

(** X14.  For a key of the mapping table that is not itself a pointer,
    the key followed by one or more [*] converts to the mapped type
    followed by exactly one [*]: pointer levels beyond the first are
    dropped. *)
Theorem pointer_levels_collapse (key mapped : string) (n : nat) :
  get (type_mappings init) key = Some mapped ->
  rstrip "*" key = key ->
  is_ignored init (key ++ repeat_char "*" (S n)) = false ->
  convert_type init (key ++ repeat_char "*" (S n))
  = Return (Some (mapped ++ "*")).
Proof.
  intros Hget Hkey Hign.
  rewrite convert_type_unfold. unfold convert_type_body. rewrite Hign.
  assert (Hbase : rstrip "*" (key ++ repeat_char "*" (S n)) = key)
    by now apply rstrip_repeat.
  apply get_In in Hget. cbn [type_mappings init In] in Hget.
  repeat (destruct Hget as [Hget|Hget];
          [injection Hget as <- <-;
           try discriminate Hkey;
           rewrite class_prefix_absent by reflexivity;
           rewrite Hbase; reflexivity|]).
  destruct Hget.
Qed.

Lemma pointer_levels_collapse_witness :
  get (type_mappings init) "FVector" = Some "RC::Unreal::FVector"
  /\ rstrip "*" "FVector" = "FVector"
  /\ is_ignored init ("FVector" ++ repeat_char "*" 3) = false
  /\ convert_type init ("FVector" ++ repeat_char "*" 3)
     = Return (Some ("RC::Unreal::FVector" ++ "*")).
Proof.
  split; [reflexivity|]. split; [reflexivity|]. split; [reflexivity|].
  exact (pointer_levels_collapse "FVector" "RC::Unreal::FVector" 2
           eq_refl eq_refl eq_refl).
Defined.

(** ** Suffix removal *)

Section SubFacts.

Variable total : nat.
Variable a : ascii.
Variable l : string.
Variable r : regex.

Let pat : regex := (Lit (String a l) >> r)%re.

Lemma at_pos_other_head s :
  match s with
  | EmptyString => True
  | String c _ => Ascii.eqb a c = false
  end ->
  at_pos false total pat s = None.
Proof.
  unfold at_pos, pat. cbn [run lit]. destruct s as [|c s]; [reflexivity|].
  intros H. unfold test, one. now rewrite Ascii.eqb_sym, H.
Qed.

Lemma has_char_head c s :
  has_char a (String c s) = false ->
  Ascii.eqb a c = false /\ has_char a s = false.
Proof.
  unfold has_char. cbn [contains startswith]. rewrite andb_true_r.
  apply orb_false_elim.
Qed.

(** A pattern that begins with a character absent from the subject
    replaces nothing. *)
Lemma sub_from_absent s :
  has_char a s = false -> sub_from false total pat "" 0 s = s.
Proof.
  induction s as [|c s IH]; intros H; cbn [sub_from].
  - now rewrite at_pos_other_head.
  - apply has_char_head in H as [Hc Hs].
    rewrite at_pos_other_head by exact Hc. now rewrite IH.
Qed.

Lemma sub_from_copy base s :
  has_char a base = false ->
  sub_from false total pat "" 0 (base ++ s)
  = base ++ sub_from false total pat "" 0 s.
Proof.
  induction base as [|c base IH]; intros H; [reflexivity|].
  apply has_char_head in H as [Hc Hs].
  cbn [String.append sub_from].
  rewrite at_pos_other_head by exact Hc. now rewrite IH.
Qed.

Lemma sub_from_skip_all s :
  sub_from false total pat "" (String.length s) s = EmptyString.
Proof.
  induction s as [|c s IH]; cbn [String.length sub_from]; [|exact IH].
  now rewrite at_pos_other_head.
Qed.

(** A match that reaches the end of the subject removes the rest. *)
Lemma sub_from_match_to_end s caps :
  at_pos false total pat s = Some (EmptyString, caps) ->
  sub_from false total pat "" 0 s = EmptyString.
Proof.
  intros H. destruct s as [|c s]; cbn [sub_from]; rewrite H.
  - reflexivity.
  - cbn [String.length Nat.sub String.append]. apply sub_from_skip_all.
Qed.

End SubFacts.

Lemma all_chars_without p a s :
  p a = false -> all_chars p s = true -> has_char a s = false.
Proof.
  intros Ha. unfold has_char. induction s as [|c s IH]; simpl; [reflexivity|].
  intros H. apply andb_prop in H as [Hc Hs]. rewrite (IH Hs), andb_true_r.
  destruct (Ascii.eqb_spec a c) as [->|]; [congruence | reflexivity].
Qed.

Lemma rep_exact {R : Type} n p u s caps (k : @K R) :
  String.length u = n -> all_chars p u = true ->
  rep false n p (u ++ s) caps k = k s caps.
Proof.
  revert u. induction n as [|n IH]; intros [|c u] Hlen Hu; try discriminate.
  - reflexivity.
  - cbn [all_chars] in Hu. apply andb_prop in Hu as [Hc Hu].
    cbn [String.append rep test]. rewrite Hc. apply IH; [|exact Hu].
    now injection Hlen.
Qed.

(** X15.  [clean_name] leaves a name without underscore as it is. *)
Theorem clean_name_without_underscore (name : string) :
  has_char "_" name = false -> clean_name name = name.
Proof.
  intros H. unfold clean_name, re_sub, guid_suffix_re, numeric_suffix_re.
  rewrite (sub_from_absent _ "_" "" _ name H).
  exact (sub_from_absent _ "_" "" _ name H).
Qed.

Lemma clean_name_without_underscore_witness :
  has_char "_" "TargetActor" = false
  /\ clean_name "TargetActor" = "TargetActor".
Proof.
  split; [reflexivity|].
  exact (clean_name_without_underscore "TargetActor" eq_refl).
Defined.

Lemma numeric_suffix_matches total ds :
  ds <> EmptyString -> all_chars cls_d ds = true ->
  at_pos false total numeric_suffix_re (String "_" ds) = Some (EmptyString, []).
Proof.
  intros Hne Hds. destruct ds as [|d ds]; [congruence|].
  cbn [all_chars] in Hds. apply andb_prop in Hds as [Hd Hds].
  unfold at_pos, numeric_suffix_re. cbn [run lit test]. unfold one at 1.
  cbn [Ascii.eqb Bool.eqb]. cbn [test]. rewrite Hd.
  rewrite <- (append_empty ds). now apply star_commits.
Qed.

Lemma guid_suffix_no_match total ds :
  ds <> EmptyString -> all_chars cls_d ds = true ->
  at_pos false total guid_suffix_re (String "_" ds) = None.
Proof.
  intros Hne Hds. destruct ds as [|d ds]; [congruence|].
  cbn [all_chars] in Hds. apply andb_prop in Hds as [Hd Hds].
  unfold at_pos, guid_suffix_re. cbn [run lit test]. unfold one at 1.
  cbn [Ascii.eqb Bool.eqb]. cbn [test]. rewrite Hd.
  apply (star_fails _ cls_d); [exact Hds|].
  intros s' Hs'. destruct s' as [|c s']; [reflexivity|].
  cbn [all_chars] in Hs'. apply andb_prop in Hs' as [Hc _].
  unfold test, one. destruct (Ascii.eqb_spec c "_") as [->|]; [discriminate Hc|].
  reflexivity.
Qed.

(** X16.  [clean_name] removes a trailing [_<digits>] from a name whose
    stem has no underscore. *)
Theorem clean_name_strips_numeric_suffix (base ds : string) :
  has_char "_" base = false ->
  ds <> EmptyString -> all_chars cls_d ds = true ->
  clean_name (base ++ "_" ++ ds) = base.
Proof.
  intros Hbase Hne Hds.
  assert (Hnu : has_char "_" ds = false)
    by (apply (all_chars_without cls_d); [reflexivity | exact Hds]).
  unfold clean_name, re_sub.
  assert (Hguid : forall total,
             sub_from false total guid_suffix_re "" 0 (base ++ "_" ++ ds)
             = base ++ "_" ++ ds).
  { intros total. unfold guid_suffix_re.
    rewrite sub_from_copy by exact Hbase.
    cbn [String.append sub_from].
    change (Lit "_" >> Plus cls_d >> Lit "_" >> Rep 32 cls_HEX >> Eol)%re
      with guid_suffix_re.
    rewrite guid_suffix_no_match by assumption.
    unfold guid_suffix_re. now rewrite sub_from_absent. }
  rewrite Hguid. unfold numeric_suffix_re.
  rewrite sub_from_copy by exact Hbase.
  rewrite (sub_from_match_to_end _ _ _ _ _ []).
  - apply append_empty.
  - now apply numeric_suffix_matches.
Qed.

Lemma clean_name_strips_numeric_suffix_witness :
  has_char "_" "Health" = false
  /\ "12" <> EmptyString /\ all_chars cls_d "12" = true
  /\ clean_name ("Health" ++ "_" ++ "12") = "Health".
Proof.
  assert (Hne : "12" <> EmptyString) by discriminate.
  split; [reflexivity|]. split; [exact Hne|]. split; [reflexivity|].
  exact (clean_name_strips_numeric_suffix "Health" "12" eq_refl Hne eq_refl).
Defined.

Lemma guid_suffix_matches total ds guid :
  ds <> EmptyString -> all_chars cls_d ds = true ->
  String.length guid = 32 -> all_chars cls_HEX guid = true ->
  at_pos false total guid_suffix_re (String "_" (ds ++ "_" ++ guid))
  = Some (EmptyString, []).
Proof.
  intros Hne Hds Hlen Hguid. destruct ds as [|d ds]; [congruence|].
  cbn [all_chars] in Hds. apply andb_prop in Hds as [Hd Hds].
  unfold at_pos, guid_suffix_re. cbn [run lit test String.append].
  unfold one at 1. cbn [Ascii.eqb Bool.eqb]. cbn [test]. rewrite Hd.
  apply star_commits; [exact Hds|].
  cbn [String.append star test].
  replace (cls_d "_") with false by reflexivity.
  cbn [run lit test]. unfold one at 1. cbn [Ascii.eqb Bool.eqb].
  rewrite <- (append_empty guid). now rewrite rep_exact.
Qed.

(** X17.  [clean_name] removes a trailing [_<digits>_<32 upper-case hex
    digits>] from a name whose stem has no underscore. *)
Theorem clean_name_strips_guid_suffix (base ds guid : string) :
  has_char "_" base = false ->
  ds <> EmptyString -> all_chars cls_d ds = true ->
  String.length guid = 32 -> all_chars cls_HEX guid = true ->
  clean_name (base ++ "_" ++ ds ++ "_" ++ guid) = base.
Proof.
  intros Hbase Hne Hds Hlen Hguid.
  unfold clean_name, re_sub.
  assert (Hfirst : forall total,
             sub_from false total guid_suffix_re "" 0
               (base ++ "_" ++ ds ++ "_" ++ guid) = base).
  { intros total. unfold guid_suffix_re.
    rewrite sub_from_copy by exact Hbase.
    rewrite (sub_from_match_to_end _ _ _ _ _ []).
    - apply append_empty.
    - now apply guid_suffix_matches. }
  rewrite Hfirst. unfold numeric_suffix_re. now apply sub_from_absent.
Qed.

Lemma clean_name_strips_guid_suffix_witness :
  has_char "_" "TargetActor" = false
  /\ "2" <> EmptyString /\ all_chars cls_d "2" = true
  /\ String.length "1A2B3C4D5E6F7890ABCDEF1234567890" = 32
  /\ all_chars cls_HEX "1A2B3C4D5E6F7890ABCDEF1234567890" = true
  /\ clean_name ("TargetActor" ++ "_" ++ "2" ++ "_"
                 ++ "1A2B3C4D5E6F7890ABCDEF1234567890") = "TargetActor".
Proof.
  assert (Hne : "2" <> EmptyString) by discriminate.
  split; [reflexivity|]. split; [exact Hne|]. split; [reflexivity|].
  split; [reflexivity|]. split; [reflexivity|].
  exact (clean_name_strips_guid_suffix "TargetActor" "2"
           "1A2B3C4D5E6F7890ABCDEF1234567890" eq_refl Hne eq_refl eq_refl
           eq_refl).
Defined.


(** ** The pools of the scanner *)

Lemma set_item_keys {V : Type} (d : dict V) k v k' :
  In k' (map fst (set_item d k v)) <-> k' = k \/ In k' (map fst d).
Proof.
  induction d as [|[k0 v0] d IH]; cbn [set_item map fst In].
  - intuition.
  - destruct (String.eqb_spec k0 k) as [->|Hne]; cbn [map fst In].
    + intuition.
    + rewrite IH. intuition.
Qed.

Lemma set_item_NoDup {V : Type} (d : dict V) k v :
  NoDup (map fst d) -> NoDup (map fst (set_item d k v)).
Proof.
  induction d as [|[k0 v0] d IH]; cbn [set_item map fst].
  - intros _. repeat constructor. intros [].
  - intros Hnd. inversion Hnd as [|? ? Hnotin Hnd']; subst.
    destruct (String.eqb_spec k0 k) as [->|Hne]; cbn [map fst].
    + now constructor.
    + constructor; [|auto].
      rewrite set_item_keys. intros [->|Hin]; [congruence | contradiction].
Qed.

Lemma record_class_ok content self m :
  pools_ok self -> pools_ok (record_class content self m).
Proof.
  intros Hok. unfold record_class.
  destruct (extract_block content (fst m)) as [b|]; [|exact Hok].
  destruct (truthy b); [|exact Hok].
  destruct Hok as [Hc Hs He Hd Hentry Hnames Hsn].
  constructor; cbn [classes structs enums dependencies]; try assumption.
  - now apply set_item_NoDup.
  - now apply set_item_NoDup.
  - intros k Hk. apply set_item_keys in Hk. apply set_item_keys.
    destruct Hk as [->|Hk]; [now left | right; auto].
  - intros k c rest Hk ->. apply set_item_keys in Hk.
    destruct Hk as [Hk|Hk]; [|eapply Hnames; eauto].
    destruct (group 1 (snd m)) as [|c0 rest0]; [discriminate Hk|].
    rewrite clean_identifier_cons in Hk.
    destruct (isdigit c0) eqn:Hd0; injection Hk as -> _;
      [reflexivity | exact Hd0].
Qed.

Lemma record_struct_ok content self m :
  pools_ok self -> pools_ok (record_struct content self m).
Proof.
  intros Hok. unfold record_struct.
  destruct (startswith "Fstruct_" (group 1 (snd m))) eqn:Hp; [|exact Hok].
  destruct (extract_block content (fst m)) as [b|]; [|exact Hok].
  destruct (truthy b); [|exact Hok].
  destruct Hok as [Hc Hs He Hd Hentry Hnames Hsn].
  constructor; cbn [classes structs enums dependencies]; try assumption.
  - now apply set_item_NoDup.
  - intros k Hk. apply set_item_keys in Hk.
    destruct Hk as [->|Hk]; [exact Hp | auto].
Qed.

Lemma record_enum_ok content self m :
  pools_ok self -> pools_ok (record_enum content self m).
Proof.
  intros Hok. unfold record_enum.
  destruct (extract_block content (fst m)) as [b|]; [|exact Hok].
  destruct (truthy b); [|exact Hok].
  destruct Hok as [Hc Hs He Hd Hentry Hnames Hsn].
  constructor; cbn [classes structs enums dependencies]; try assumption.
  now apply set_item_NoDup.
Qed.

Lemma fold_left_preserves {A B : Type} (P : A -> Prop) (f : A -> B -> A) l :
  (forall a b, P a -> P (f a b)) -> forall a, P a -> P (fold_left f l a).
Proof.
  intros Hf. induction l as [|b l IH]; intros a Ha; simpl; auto.
Qed.

Lemma process_file_ok self content :
  pools_ok self -> pools_ok (fst (process_file self content)).
Proof.
  intros Hok. unfold process_file.
  destruct (existsb _ engine_modules); [exact Hok|]. cbn [fst].
  apply fold_left_preserves; [intros; now apply record_enum_ok|].
  apply fold_left_preserves; [intros; now apply record_struct_ok|].
  apply fold_left_preserves; [intros; now apply record_class_ok|].
  exact Hok.
Qed.

Lemma empty_pools_ok : pools_ok empty_pools.
Proof.
  constructor; cbn; try constructor; intros; contradiction.
Qed.

Lemma scan_files_ok files self :
  pools_ok self -> pools_ok (scan_files files self).
Proof.
  intros Hok. unfold scan_files.
  apply fold_left_preserves; [|exact Hok].
  intros a file Ha. destruct (should_skip_file (fst file)); [exact Ha|].
  now apply process_file_ok.
Qed.

(** X18.  [process_file] keeps the pools well formed: after the call each
    pool is still a dictionary, every class has a dependency entry, no
    class name starts with a digit and every struct name starts with
    [Fstruct_]; a text that mentions an engine module changes nothing and
    returns [None]. *)
Theorem process_file_keeps_pools (self : HeaderConsolidator)
  (content : string) :
  pools_ok self ->
  pools_ok (fst (process_file self content))
  /\ (existsb (fun module => contains module content) engine_modules = true ->
      process_file self content = (self, None)).
Proof.
  intros Hok. split; [now apply process_file_ok|].
  intros He. unfold process_file. now rewrite He.
Qed.

Lemma process_file_keeps_pools_witness :
  pools_ok empty_pools
  /\ pools_ok (fst (process_file empty_pools actor_header)).
Proof.
  split; [exact empty_pools_ok|].
  exact (proj1 (process_file_keeps_pools empty_pools actor_header
                  empty_pools_ok)).
Defined.


(** X19.  On the pools built from the empty pools by scanning any list of
    files, [sort_declarations] returns within N+1 passes, places every
    class name exactly once, and flushes in its deadlock arm only classes
    that have a dependency entry with a name that was never processed. *)
Theorem scanned_pools_are_sorted (files : list (string * string)) :
  let self := scan_files files empty_pools in
  pools_ok self
  /\ exists st,
       sort_run self = Return st
       /\ passes st <= List.length (classes self) + 1
       /\ Permutation (map em_name (log st)) (map fst (classes self))
       /\ (forall e,
              In e (log st) -> em_branch e = Deadlock ->
              exists ds b,
                get (dependencies self) (em_name e) = Some ds
                /\ In b ds /\ ~ In b (processed st)).
Proof.
  intros self.
  assert (Hok : pools_ok self) by apply scan_files_ok, empty_pools_ok.
  split; [exact Hok|].
  destruct (schedule_total (dependencies self) (List.length (classes self))
              (start self)) as [st Hrun]; [reflexivity|].
  exists st. split; [exact Hrun|].
  pose proof (schedule_passes _ _ _ _ Hrun) as Hp.
  pose proof (schedule_names _ _ _ _ Hrun (ok_classes _ Hok)) as Hn.
  cbn [start pending passes log map List.app] in Hp, Hn.
  split; [lia|]. split; [exact Hn|].
  intros e He Hb.
  assert (Hkey : In (em_name e) (map fst (dependencies self))).
  { apply (ok_entry _ Hok). eapply Permutation_in; [exact Hn|].
    now apply in_map. }
  apply key_get in Hkey as [ds Hds]. exists ds.
  destruct (schedule_flush _ _ _ _ Hrun eq_refl) as (_ & _ & H).
  destruct (H e ds He) as [b [Hin Hnot]];
    [unfold flushed; now rewrite Hb | now apply get_In | eauto].
Qed.

(** X20.  A class with a dependency on a name that is not a class of the
    pool is never placed by the ready arm: it is flushed by the deadlock
    arm. *)
Theorem dangling_dependency_is_flushed (self : HeaderConsolidator)
  (st : emitter) (e : emission) (ds : list string) (b : string) :
  NoDup (map fst (dependencies self)) ->
  sort_run self = Return st ->
  In e (log st) ->
  get (dependencies self) (em_name e) = Some ds ->
  In b ds ->
  ~ In b (map fst (classes self)) ->
  em_branch e = Deadlock.
Proof.
  intros Hnd Hrun He Hds Hb Hout.
  destruct (em_branch e) eqn:Hbr; [|reflexivity]. exfalso.
  destruct (ready_dependency_before self st e ds b Hnd Hrun (conj He Hbr)
              Hds Hb) as [e' ([He' _] & Hname & _)].
  destruct (schedule_modules _ _ _ _ Hrun e' He') as [[]|[Hin _]].
  apply Hout. rewrite <- Hname. cbn [start pending] in Hin.
  now apply (in_map fst) in Hin.
Qed.

Lemma dangling_dependency_is_flushed_witness :
  NoDup (map fst (dependencies cyclic_pool))
  /\ sort_run cyclic_pool = Return cyclic_run
  /\ In emission_E (log cyclic_run)
  /\ get (dependencies cyclic_pool) (em_name emission_E) = Some ["Missing"]
  /\ In "Missing" ["Missing"]
  /\ ~ In "Missing" (map fst (classes cyclic_pool))
  /\ em_branch emission_E = Deadlock.
Proof.
  assert (Hnd : NoDup (map fst (dependencies cyclic_pool))) by distinct_keys.
  assert (HE : In emission_E (log cyclic_run)) by (simpl; tauto).
  assert (Hin : In "Missing" ["Missing"]) by (simpl; tauto).
  assert (Hout : ~ In "Missing" (map fst (classes cyclic_pool)))
    by (simpl; intuition discriminate).
  split; [exact Hnd|]. split; [reflexivity|]. split; [exact HE|].
  split; [reflexivity|]. split; [exact Hin|]. split; [exact Hout|].
  exact (dangling_dependency_is_flushed cyclic_pool cyclic_run emission_E
           ["Missing"] "Missing" Hnd eq_refl HE eq_refl Hin Hout).
Defined.

(** ** [convert_file] *)

Lemma convert_lines_bad_line self lines line e :
  In line lines ->
  re_match false class_line_re line = None ->
  contains "//" line && contains "0x" line = true ->
  convert_line_to_field self line = Raises e ->
  forall current_class output_lines r,
    convert_lines self lines current_class output_lines <> Return r.
Proof.
  intros Hin Hclass Hfield Hraise.
  induction lines as [|line0 rest IH]; [destruct Hin|].
  intros cur out r. cbn [convert_lines].
  destruct Hin as [->|Hin].
  - rewrite Hclass, Hfield, Hraise. discriminate.
  - destruct (re_match false class_line_re line0); [now apply IH|].
    destruct (contains "//" line0 && contains "0x" line0); [|now apply IH].
    destruct (convert_line_to_field self line0) as [[f|]| |];
      cbn [bind truthy_opt]; try discriminate; [|now apply IH].
    destruct (truthy f); now apply IH.
Qed.

(** X21.  One field line whose type makes [convert_line_to_field] raise
    loses the whole file: [convert_file] returns no output. *)
Theorem convert_file_fails_on_bad_field (self : HPPConverter)
  (fs : filesystem) (content input_dir line : string) (e : exn) :
  In line (readlines content) ->
  re_match false class_line_re line = None ->
  contains "//" line && contains "0x" line = true ->
  convert_line_to_field self line = Raises e ->
  forall output_lines,
    convert_file self fs content input_dir <> Return output_lines.
Proof.
  intros Hin Hclass Hfield Hraise out. unfold convert_file.
  destruct (convert_file_structs self fs input_dir _ preamble) as [out0| |];
    cbn [bind]; try discriminate.
  destruct (convert_lines self (readlines content) None out0) as [st| |] eqn:Hl;
    cbn [bind]; try discriminate.
  exfalso. revert Hl. now apply (convert_lines_bad_line self _ line e).
Qed.

Lemma convert_file_fails_on_bad_field_witness :
  In ("    TArray< Items; // 0x0010" ++ nl)
    (readlines ("class AFoo_C : public AActor" ++ nl
                ++ "    TArray< Items; // 0x0010" ++ nl))
  /\ re_match false class_line_re ("    TArray< Items; // 0x0010" ++ nl) = None
  /\ contains "//" ("    TArray< Items; // 0x0010" ++ nl)
     && contains "0x" ("    TArray< Items; // 0x0010" ++ nl) = true
  /\ convert_line_to_field init ("    TArray< Items; // 0x0010" ++ nl)
     = Raises AttributeError
  /\ forall output_lines,
       convert_file init stray_fs
         ("class AFoo_C : public AActor" ++ nl
          ++ "    TArray< Items; // 0x0010" ++ nl) "dump"
       <> Return output_lines.
Proof.
  assert (Hin : In ("    TArray< Items; // 0x0010" ++ nl)
                  (readlines ("class AFoo_C : public AActor" ++ nl
                              ++ "    TArray< Items; // 0x0010" ++ nl)))
    by (vm_compute; tauto).
  split; [exact Hin|]. split; [reflexivity|]. split; [reflexivity|].
  split; [reflexivity|].
  exact (convert_file_fails_on_bad_field init stray_fs _ "dump" _
           AttributeError Hin eq_refl eq_refl eq_refl).
Defined.

Lemma convert_line_to_field_shape self line f :
  convert_line_to_field self line = Return (Some f) ->
  exists offset type name, f = FIELD offset type name.
Proof.
  unfold convert_line_to_field.
  destruct (re_match true field_re line) as [m|]; [|discriminate].
  destruct (convert_type self (group 1 m)) as [[t|]| |]; cbn [bind];
    try discriminate.
  destruct (truthy t); [|discriminate]. intros [= <-]. eauto.
Qed.

(** The closing lines and the class headers among some lines. *)
Lemma convert_lines_balance self lines :
  (forall line m,
      In line lines -> re_match false class_line_re line = Some m ->
      clean_class_name (group 1 m) <> EmptyString) ->
  forall current_class output_lines st,
  convert_lines self lines current_class output_lines = Return st ->
  exists added,
    snd st = (output_lines ++ added)%list
    /\ List.length (filter (String.eqb class_closer) added)
       + (if truthy_opt (fst st) then 1 else 0)
       = List.length (filter (startswith "class ") added)
         + (if truthy_opt current_class then 1 else 0).
Proof.
  induction lines as [|line rest IH]; intros Hnames cur out st;
    cbn [convert_lines].
  - intros [= <-]. exists []. cbn [fst snd]. now rewrite app_nil_r.
  - assert (Hrest : forall l m,
               In l rest -> re_match false class_line_re l = Some m ->
               clean_class_name (group 1 m) <> EmptyString).
    { intros l m Hl. apply Hnames. now right. }
    specialize (IH Hrest).
    destruct (re_match false class_line_re line) as [m|] eqn:Hm.
    + intros H. apply IH in H as [added [Hout Hbal]].
      assert (Hne : truthy (clean_class_name (group 1 m)) = true).
      { unfold truthy. apply negb_true_iff, String.eqb_neq.
        apply (Hnames line m); [now left | exact Hm]. }
      unfold open_class in Hout, Hbal. cbn [fst snd truthy_opt] in Hout, Hbal.
      rewrite Hne in Hbal.
      destruct (truthy_opt cur); unfold append in Hout.
      * rewrite <- !app_assoc in Hout. eexists. split; [exact Hout|].
        cbn [List.app filter]. cbn. cbn in Hbal. lia.
      * rewrite <- !app_assoc in Hout. eexists. split; [exact Hout|].
        cbn [List.app filter]. cbn. cbn in Hbal. lia.
    + destruct (contains "//" line && contains "0x" line); [|apply IH].
      destruct (convert_line_to_field self line) as [[f|]| |] eqn:Hf;
        cbn [bind truthy_opt]; try discriminate; [|apply IH].
      destruct (truthy f); [|apply IH].
      intros H. apply IH in H as [added [Hout Hbal]].
      apply convert_line_to_field_shape in Hf as (o & t & n & ->).
      unfold append in Hout. rewrite <- app_assoc in Hout.
      eexists. split; [exact Hout|].
      cbn [List.app filter]. cbn. exact Hbal.
Qed.

(** The two loops of [convert_file] only append: run from any output
    so far, they add what they produce when run from the empty list. *)
Lemma convert_file_structs_from_nil self fs input_dir names :
  forall output_lines,
  convert_file_structs self fs input_dir names output_lines
  = (struct_lines <- convert_file_structs self fs input_dir names [] ;;
     Return (output_lines ++ struct_lines)%list).
Proof.
  induction names as [|name names IH]; intros out;
    cbn [convert_file_structs].
  - cbn [bind]. now rewrite app_nil_r.
  - destruct (process_struct_file self fs name input_dir) as [sl| |];
      cbn [bind]; try reflexivity.
    destruct sl as [|l sl]; [apply IH|].
    unfold extend. rewrite (IH (out ++ l :: sl)%list), (IH ([] ++ l :: sl)%list).
    destruct (convert_file_structs self fs input_dir names []) as [more| |];
      cbn [bind]; try reflexivity.
    cbn [List.app]. now rewrite <- app_assoc.
Qed.

Lemma open_class_from_nil line class_match current_class output_lines :
  open_class line class_match current_class output_lines
  = (fst (open_class line class_match current_class []),
     (output_lines ++ snd (open_class line class_match current_class []))%list).
Proof.
  unfold open_class, append. cbn [fst snd].
  destruct (truthy_opt current_class); cbn [List.app];
    now rewrite <- ?app_assoc.
Qed.

Lemma convert_lines_from_nil self lines :
  forall current_class output_lines,
  convert_lines self lines current_class output_lines
  = (st <- convert_lines self lines current_class [] ;;
     Return (fst st, (output_lines ++ snd st)%list)).
Proof.
  induction lines as [|line rest IH]; intros cur out; cbn [convert_lines].
  - cbn [bind fst snd]. now rewrite app_nil_r.
  - destruct (re_match false class_line_re line) as [m|].
    + rewrite (open_class_from_nil line m cur out). cbn [fst snd].
      rewrite (IH _ (out ++ _)%list), (IH _ (snd (open_class line m cur []))).
      destruct (convert_lines self rest (fst (open_class line m cur [])) [])
        as [st| |]; cbn [bind fst snd]; try reflexivity.
      now rewrite <- app_assoc.
    + destruct (contains "//" line && contains "0x" line); [|apply IH].
      destruct (convert_line_to_field self line) as [[f|]| |];
        cbn [bind truthy_opt]; try reflexivity; [|apply IH].
      destruct (truthy f); [|apply IH].
      unfold append. rewrite (IH _ (out ++ [f])%list), (IH _ ([] ++ [f])%list).
      destruct (convert_lines self rest cur []) as [st| |];
        cbn [bind fst snd]; try reflexivity.
      cbn [List.app]. now rewrite <- app_assoc.
Qed.

(** X22.  What [convert_file] returns is the fixed preamble, then the lines
    its loop over the found structs produces, then the lines its loop over
    the main file produces (closed by one closing line when a class is still
    open), then the line closing the namespace; if no class line has a name
    that cleans to the empty string, that main part holds as many closing
    lines as class headers. *)
Theorem convert_file_shape (self : HPPConverter) (fs : filesystem)
  (content input_dir : string) (output_lines : list string) :
  convert_file self fs content input_dir = Return output_lines ->
  exists struct_lines current_class body main,
    convert_file_structs self fs input_dir
      (sorted_set
         (map (fun m => group 1 (snd m))
            (finditer false struct_ref_re content))) []
    = Return struct_lines
    /\ convert_lines self (readlines content) None []
       = Return (current_class, body)
    /\ main
       = (body ++ if truthy_opt current_class then [class_closer] else [])%list
    /\ output_lines
       = (preamble ++ struct_lines ++ main ++ [namespace_closer])%list
    /\ ((forall line m,
            In line (readlines content) ->
            re_match false class_line_re line = Some m ->
            clean_class_name (group 1 m) <> EmptyString) ->
        List.length (filter (String.eqb class_closer) main)
        = List.length (filter (startswith "class ") main)).
Proof.
  unfold convert_file. cbv zeta. generalize preamble. intros pre.
  rewrite convert_file_structs_from_nil.
  destruct (convert_file_structs self fs input_dir _ []) as [struct_lines| |]
    eqn:Hs; cbn [bind]; try discriminate.
  rewrite convert_lines_from_nil.
  destruct (convert_lines self (readlines content) None []) as [[cur body]| |]
    eqn:Hl; cbn [bind fst snd]; try discriminate.
  intros [= <-].
  exists struct_lines, cur, body.
  exists (body ++ if truthy_opt cur then [class_closer] else [])%list.
  split; [reflexivity|]. split; [reflexivity|]. split; [reflexivity|]. split.
  - unfold append.
    destruct (truthy_opt cur); rewrite <- ?app_assoc, ?app_nil_r;
      reflexivity.
  - intros Hnames.
    destruct (convert_lines_balance self _ Hnames _ _ _ Hl)
      as [added [Hadded Hbal]].
    cbn [fst snd List.app truthy_opt] in Hadded, Hbal. subst added.
    destruct (truthy_opt cur).
    + rewrite !filter_app, !List.length_app.
      change (filter (String.eqb class_closer) [class_closer])
        with [class_closer].
      change (filter (startswith "class ") [class_closer]) with (@nil string).
      cbn [List.length]. lia.
    + rewrite app_nil_r. lia.
Qed.

(** The parts of [pawn_header]: the struct block of [Fstruct_Stats] and the
    class [Pawn], closed at the end of the file. *)
Lemma convert_file_shape_witness :
  convert_file init pawn_fs pawn_dump "dump" = Return pawn_header
  /\ exists struct_lines current_class body main,
       convert_file_structs init pawn_fs "dump"
         (sorted_set
            (map (fun m => group 1 (snd m))
               (finditer false struct_ref_re pawn_dump))) []
       = Return struct_lines
       /\ convert_lines init (readlines pawn_dump) None []
          = Return (current_class, body)
       /\ main
          = (body ++ if truthy_opt current_class then [class_closer]
                     else [])%list
       /\ pawn_header
          = (preamble ++ struct_lines ++ main ++ [namespace_closer])%list
       /\ ((forall line m,
               In line (readlines pawn_dump) ->
               re_match false class_line_re line = Some m ->
               clean_class_name (group 1 m) <> EmptyString) ->
           List.length (filter (String.eqb class_closer) main)
           = List.length (filter (startswith "class ") main)).
Proof.
  split; [reflexivity|].
  exact (convert_file_shape init pawn_fs pawn_dump "dump" pawn_header eq_refl).
Defined.

(** ** Groups of the result *)

Lemma append_to_keys oc k x k' :
  In k' (map fst (append_to oc k x)) <-> k' = k \/ In k' (map fst oc).
Proof.
  induction oc as [|[k0 v0] oc IH]; cbn [append_to map fst In].
  - intuition.
  - destruct (String.eqb_spec k0 k) as [->|Hne]; cbn [map fst In].
    + intuition.
    + rewrite IH. intuition.
Qed.

Lemma append_to_ok oc k x : groups_ok oc -> groups_ok (append_to oc k x).
Proof.
  unfold groups_ok. induction oc as [|[k0 v0] oc IH]; cbn [append_to map fst].
  - intros _. split; repeat constructor; [intros [] | discriminate].
  - intros [Hnd Hne]. inversion Hnd as [|? ? Hnotin Hnd']; subst.
    inversion Hne as [|? ? Hv Hne']; subst.
    destruct (String.eqb_spec k0 k) as [->|Hk]; cbn [map fst].
    + split; [now constructor|]. constructor; [|assumption].
      cbn [snd]. unfold append. now destruct v0.
    + destruct (IH (conj Hnd' Hne')) as [Hnd2 Hne2].
      split; [|now constructor].
      constructor; [|assumption].
      rewrite append_to_keys. intros [->|Hin]; [congruence | contradiction].
Qed.

Lemma add_all_ok group d oc : groups_ok oc -> groups_ok (add_all group d oc).
Proof.
  unfold add_all. apply fold_left_preserves.
  intros a b. apply append_to_ok.
Qed.

Lemma schedule_groups deps fuel st st' :
  schedule deps fuel st = Return st' ->
  groups_ok (ordered_content st) -> groups_ok (ordered_content st').
Proof.
  revert fuel st st'.
  apply (schedule_ind deps
           (fun st st' =>
              groups_ok (ordered_content st) ->
              groups_ok (ordered_content st'))).
  - auto.
  - intros st n c st' _ IH Hok. apply IH. cbn [emit_ready ordered_content].
    now apply append_to_ok.
  - intros st _ _ Hok. unfold flush. cbn [ordered_content].
    apply (fold_left_preserves (fun s => groups_ok (ordered_content s)));
      [|exact Hok].
    intros a b Ha. cbn [emit_stuck ordered_content]. now apply append_to_ok.
Qed.

(** X23.  The groups [sort_declarations] returns have distinct names and
    none of them is empty: [consolidate_headers] writes one file for each
    group and its guard against an empty group never fires. *)
Theorem sort_declarations_groups (self : HeaderConsolidator)
  (ordered : dict (list string)) :
  sort_declarations self = Return ordered ->
  NoDup (map fst ordered)
  /\ (forall module content_list,
         In (module, content_list) ordered -> content_list <> []).
Proof.
  unfold sort_declarations, sort_run.
  destruct (schedule (dependencies self) (List.length (classes self))
              (start self)) as [st| |] eqn:Hrun; cbn [bind]; try discriminate.
  intros [= <-].
  assert (Hok : groups_ok (ordered_content st)).
  { apply (schedule_groups _ _ _ _ Hrun). cbn [start ordered_content].
    apply add_all_ok, add_all_ok. split; constructor. }
  destruct Hok as [Hnd Hne]. split; [exact Hnd|].
  intros module content_list Hin. rewrite Forall_forall in Hne.
  exact (Hne _ Hin).
Qed.

Lemma sort_declarations_groups_witness :
  sort_declarations cyclic_pool = Return (ordered_content cyclic_run)
  /\ NoDup (map fst (ordered_content cyclic_run)).
Proof.
  split; [reflexivity|].
  exact (proj1 (sort_declarations_groups cyclic_pool
                  (ordered_content cyclic_run) eq_refl)).
Defined.

(** ** Struct blocks *)

Lemma convert_struct_field_shape self line f :
  convert_struct_field self line = Return (Some f) ->
  exists offset type name, f = FIELD offset type name.
Proof.
  unfold convert_struct_field.
  destruct (re_match true struct_field_re line) as [m|]; [|discriminate].
  destruct (convert_type self (group 1 m)) as [[t|]| |]; cbn [bind];
    try discriminate.
  destruct (truthy t); [|discriminate]. intros [= <-]. eauto.
Qed.

Lemma last_occurrence {A : Type} (x : A) l pre post :
  ~ In x l -> (l ++ [x] = pre ++ x :: post)%list -> post = [].
Proof.
  intros Hnot Heq. destruct post as [|y post] using rev_ind; [reflexivity|].
  exfalso. apply Hnot.
  change (pre ++ x :: post ++ [y])%list
    with (pre ++ (x :: post) ++ [y])%list in Heq.
  rewrite app_assoc in Heq. apply app_inj_tail in Heq as [-> _].
  apply in_or_app. right. now left.
Qed.

Lemma struct_scan_shape self struct_name lines :
  forall in_struct struct_lines r,
  struct_scan self struct_name lines in_struct struct_lines = Return r ->
  (if in_struct
   then exists tail, struct_lines = struct_opening struct_name :: tail
   else struct_lines = []) ->
  ~ In class_closer struct_lines ->
  (r = [] \/ exists tail, r = struct_opening struct_name :: tail)
  /\ (forall pre post,
         r = (pre ++ class_closer :: post)%list -> post = []).
Proof.
  induction lines as [|line rest IH]; intros in_struct acc r;
    cbn [struct_scan].
  - intros [= <-] Hshape Hclos. split.
    + destruct in_struct; [right; exact Hshape | now left].
    + intros pre post ->. exfalso. apply Hclos, in_or_app. right. now left.
  - destruct (contains ("struct " ++ struct_name) line).
    + intros H Hshape Hclos. apply IH in H; [exact H| |].
      * unfold append. destruct in_struct.
        -- destruct Hshape as [tail ->]. eexists. reflexivity.
        -- rewrite Hshape. eexists. reflexivity.
      * unfold append. intros Hin. apply in_app_or in Hin as [Hin|[Hin|[]]];
          [contradiction | discriminate Hin].
    + destruct in_struct; [|apply IH].
      destruct (contains "};" line).
      * intros [= <-] [tail ->] Hclos. split.
        -- right. unfold append. eexists. reflexivity.
        -- intros pre post Heq. unfold append in Heq.
           eapply last_occurrence; [exact Hclos | exact Heq].
      * destruct (contains "//" line && contains "0x" line); [|apply IH].
        destruct (convert_struct_field self line) as [[f|]| |] eqn:Hf;
          cbn [bind]; try discriminate; [|apply IH].
        destruct (truthy f); [|apply IH].
        intros H [tail ->] Hclos. apply IH in H; [exact H| |].
        -- unfold append. eexists. reflexivity.
        -- apply convert_struct_field_shape in Hf as (o & t & n & ->).
           unfold append. intros Hin.
           apply in_app_or in Hin as [Hin|[Hin|[]]];
             [contradiction | discriminate Hin].
Qed.

(** X24.  The lines [process_struct_file] returns are either none, or start
    with the opening line of the struct; a closing line can only be the
    last one. *)
Theorem process_struct_file_shape (self : HPPConverter) (fs : filesystem)
  (struct_name input_dir : string) (struct_lines : list string) :
  process_struct_file self fs struct_name input_dir = Return struct_lines ->
  (struct_lines = []
   \/ exists tail, struct_lines = struct_opening struct_name :: tail)
  /\ (forall pre post,
         struct_lines = (pre ++ class_closer :: post)%list -> post = []).
Proof.
  unfold process_struct_file.
  destruct (fs input_dir (lower struct_name ++ ".hpp")) as [[lines|e]|].
  - intros H. apply (struct_scan_shape _ _ _ _ _ _ H); [reflexivity|].
    intros [].
  - discriminate.
  - intros [= <-]. split; [now left|]. intros [|? ?] post H; discriminate H.
Qed.

Lemma process_struct_file_shape_witness :
  process_struct_file init pawn_fs "Fstruct_Stats" "dump"
  = Return [struct_opening "Fstruct_Stats";
            FIELD "0x0000" "float" "Health"; class_closer]
  /\ ([struct_opening "Fstruct_Stats";
       FIELD "0x0000" "float" "Health"; class_closer] = []
      \/ exists tail,
           [struct_opening "Fstruct_Stats";
            FIELD "0x0000" "float" "Health"; class_closer]
           = struct_opening "Fstruct_Stats" :: tail).
Proof.
  split; [reflexivity|].
  exact (proj1 (process_struct_file_shape init pawn_fs "Fstruct_Stats" "dump"
                  _ eq_refl)).
Defined.

(** ** The class keyword *)

Lemma star_stops {R : Type} p s caps (k : @K R) :
  match s with
  | EmptyString => True
  | String c _ => p c = false
  end ->
  star false p s caps k = k s caps.
Proof.
  destruct s as [|c s]; [reflexivity|]. intros H. cbn [star test].
  now rewrite H.
Qed.

Lemma class_prefix_removed t :
  match t with
  | EmptyString => True
  | String c _ => isspace c = false
  end ->
  re_sub false class_prefix_re "" ("class " ++ t) = t.
Proof.
  intros Ht. unfold re_sub, class_prefix_re.
  cbn [String.append sub_from].
  assert (Hat : at_pos false (String.length ("class " ++ t))
                  (Bol >> Lit "class" >> Plus cls_s)
                  (String "c" (String "l" (String "a" (String "s"
                     (String "s" (String " " t))))))
                = Some (t, [])).
  { unfold at_pos. cbn [run String.append]. rewrite Nat.eqb_refl.
    cbn [lit test one Ascii.eqb Bool.eqb].
    replace (cls_s " ") with true by reflexivity.
    now rewrite star_stops. }
  cbn [String.append] in Hat. rewrite Hat.
  cbn [String.length].
  replace (S (S (S (S (S (S (String.length t)))))) - String.length t)
    with 6 by lia.
  cbn [String.append sub_from].
  apply sub_from_bol_inside. lia.
Qed.

Lemma is_ignored_class_prefix t :
  is_ignored init ("class " ++ t) = is_ignored init t.
Proof.
  unfold is_ignored. cbn [ignored_types init existsb].
  cbn [String.append contains startswith Ascii.eqb Bool.eqb andb orb].
  reflexivity.
Qed.

(** X25.  A leading [class] keyword does not change the conversion: for a
    token that does not itself start with the keyword or with white space,
    [class <token>] converts as the token does. *)
Theorem class_keyword_is_dropped (t : string) :
  startswith "class" t = false ->
  match t with
  | EmptyString => True
  | String c _ => isspace c = false
  end ->
  convert_type init ("class " ++ t) = convert_type init t.
Proof.
  intros Hkw Hws.
  rewrite (convert_type_unfold init ("class " ++ t)),
    (convert_type_unfold init t).
  unfold convert_type_body.
  now rewrite is_ignored_class_prefix, class_prefix_removed,
    class_prefix_absent.
Qed.

Lemma class_keyword_is_dropped_witness :
  startswith "class" "UMyItem_C*" = false
  /\ isspace "U" = false
  /\ convert_type init ("class " ++ "UMyItem_C*") = convert_type init "UMyItem_C*".
Proof.
  split; [reflexivity|]. split; [reflexivity|].
  exact (class_keyword_is_dropped "UMyItem_C*" eq_refl eq_refl).
Defined.

(** ** What the matcher accepts *)

Section Soundness.

Variable ic : bool.
Variable total : nat.
Context {R : Type}.
Implicit Types (s : string) (caps : list string) (k : @K R) (x : R).

Lemma star_sound p s caps k x :
  star ic p s caps k = Some x ->
  exists s', denotes ic total (Star p) s s' [] /\ k s' caps = Some x.
Proof.
  induction s as [|c s IH]; cbn [star].
  - intros H. exists EmptyString. split; [constructor | exact H].
  - destruct (test ic p c) eqn:Hc.
    + destruct (star ic p s caps k) eqn:Hs.
      * intros [= ->]. destruct (IH eq_refl) as [s' [Hd Hk]].
        exists s'. split; [now constructor | exact Hk].
      * intros H. exists (String c s). split; [constructor | exact H].
    + intros H. exists (String c s). split; [constructor | exact H].
Qed.

Lemma rep_sound n p s caps k x :
  rep ic n p s caps k = Some x ->
  exists s', denotes ic total (Rep n p) s s' [] /\ k s' caps = Some x.
Proof.
  revert s. induction n as [|n IH]; intros s; cbn [rep].
  - intros H. exists s. split; [constructor | exact H].
  - destruct s as [|c s]; [discriminate|].
    destruct (test ic p c) eqn:Hc; [|discriminate].
    intros H. destruct (IH _ H) as [s' [Hd Hk]].
    exists s'. split; [now constructor | exact Hk].
Qed.

Lemma lit_sound l s caps k x :
  lit ic l s caps k = Some x ->
  exists s', denotes ic total (Lit l) s s' [] /\ k s' caps = Some x.
Proof.
  revert s. induction l as [|a l IH]; intros s; cbn [lit].
  - intros H. exists s. split; [constructor | exact H].
  - destruct s as [|c s]; [discriminate|].
    destruct (test ic (one a) c) eqn:Hc; [|discriminate].
    intros H. destruct (IH _ H) as [s' [Hd Hk]].
    exists s'. split; [now constructor | exact Hk].
Qed.

(** Whatever the matcher accepts, the pattern denotes. *)
Lemma run_sound r : forall s caps k x,
  run ic total r s caps k = Some x ->
  exists s' new,
    denotes ic total r s s' new /\ k s' (caps ++ new)%list = Some x.
Proof.
  induction r as [p|l|p|p|n p|r IH|r1 IH1 r2 IH2|r IH| |];
    intros s caps k x; cbn [run].
  - destruct s as [|c s]; [discriminate|].
    destruct (test ic p c) eqn:Hc; [|discriminate].
    intros H. exists s, []. rewrite app_nil_r. split; [now constructor | exact H].
  - intros H. apply lit_sound in H as [s' [Hd Hk]].
    exists s', []. now rewrite app_nil_r.
  - intros H. apply star_sound in H as [s' [Hd Hk]].
    exists s', []. now rewrite app_nil_r.
  - destruct s as [|c s]; [discriminate|].
    destruct (test ic p c) eqn:Hc; [|discriminate].
    intros H. apply star_sound in H as [s' [Hd Hk]].
    exists s', []. rewrite app_nil_r. split; [now constructor | exact Hk].
  - intros H. apply rep_sound in H as [s' [Hd Hk]].
    exists s', []. now rewrite app_nil_r.
  - destruct (run ic total r s caps k) eqn:Hr.
    + intros [= ->]. destruct (IH _ _ _ _ Hr) as (s' & new & Hd & Hk).
      exists s', new. split; [now constructor | exact Hk].
    + intros H. exists s, []. rewrite app_nil_r.
      split; [apply den_opt_none | exact H].
  - intros H. apply IH1 in H as (s1 & new1 & Hd1 & H).
    apply IH2 in H as (s2 & new2 & Hd2 & Hk).
    exists s2, (new1 ++ new2)%list. rewrite app_assoc.
    split; [econstructor; eassumption | exact Hk].
  - intros H. apply IH in H as (s' & new & Hd & Hk).
    exists s', (new ++ [substring 0 (String.length s - String.length s') s])%list.
    rewrite app_assoc. split; [now constructor | exact Hk].
  - destruct (Nat.eqb_spec (String.length s) total) as [He|]; [|discriminate].
    intros H. exists s, []. rewrite app_nil_r. split; [now constructor | exact H].
  - destruct s as [|c [|c' s]]; try discriminate.
    + intros H. exists EmptyString, []. rewrite app_nil_r.
      split; [apply den_eol_end | exact H].
    + destruct (is_code 10 c) eqn:Hc; [|discriminate].
      intros H. exists (String c EmptyString), []. rewrite app_nil_r.
      split; [now apply den_eol_newline | exact H].
Qed.

End Soundness.

Lemma at_pos_sound ic total r s rest caps :
  at_pos ic total r s = Some (rest, caps) -> denotes ic total r s rest caps.
Proof.
  unfold at_pos. intros H. apply run_sound in H as (s' & new & Hd & Hk).
  now injection Hk as <- <-.
Qed.

Lemma denotes_star_word ic total p s s' caps :
  denotes ic total (Star p) s s' caps ->
  caps = []
  /\ exists w, s = w ++ s' /\ all_chars (test ic p) w = true.
Proof.
  intros H. remember (Star p) as r eqn:Hr.
  induction H; try discriminate; injection Hr as ->.
  - split; [reflexivity|]. exists EmptyString. split; reflexivity.
  - destruct (IHdenotes eq_refl) as [_ [w [-> Hw]]].
    split; [reflexivity|]. exists (String c w). split; [reflexivity|].
    cbn [all_chars]. now rewrite H, Hw.
Qed.

Lemma denotes_plus_word ic total p s s' caps :
  denotes ic total (Plus p) s s' caps ->
  caps = []
  /\ exists w, s = w ++ s' /\ w <> EmptyString
               /\ all_chars (test ic p) w = true.
Proof.
  intros H. inversion H; subst.
  match goal with
  | Hs : denotes _ _ (Star _) _ _ _ |- _ =>
      apply denotes_star_word in Hs as [_ [w [-> Hw]]]
  end.
  split; [reflexivity|]. exists (String c w).
  split; [reflexivity|]. split; [discriminate|].
  cbn [all_chars]. match goal with Hc : test _ _ _ = true |- _ => rewrite Hc end.
  exact Hw.
Qed.

Lemma capture_prefix w s' :
  substring 0 (String.length (w ++ s') - String.length s') (w ++ s') = w.
Proof.
  rewrite length_app.
  replace (String.length w + String.length s' - String.length s')
    with (String.length w) by lia.
  apply substring_prefix.
Qed.

Lemma denotes_groupless ic total r s s' caps :
  denotes ic total r s s' caps -> groupless r = true -> caps = [].
Proof.
  induction 1; cbn [groupless]; intros Hg; try reflexivity; auto;
    try discriminate.
  apply andb_prop in Hg as [H1 H2].
  now rewrite (IHdenotes1 H1), (IHdenotes2 H2).
Qed.

Lemma denotes_group_plus ic total p s s' caps :
  denotes ic total (Grp (Plus p)) s s' caps ->
  exists w, caps = [w] /\ s = w ++ s' /\ w <> EmptyString
            /\ all_chars (test ic p) w = true.
Proof.
  intros H. inversion H; subst.
  match goal with
  | Hp : denotes _ _ (Plus _) _ _ _ |- _ =>
      apply denotes_plus_word in Hp as [-> (w & -> & Hne & Hw)]
  end.
  exists w. rewrite capture_prefix. auto.
Qed.

Lemma test_word c : test true cls_w c = cls_w c.
Proof. destruct c as [[] [] [] [] [] [] [] []]; reflexivity. Qed.

Lemma test_hex c : test true cls_HEX c = hexdigit c.
Proof. destruct c as [[] [] [] [] [] [] [] []]; reflexivity. Qed.

Lemma test_zero c : test true (one "0") c = true -> c = "0"%char.
Proof.
  destruct c as [[] [] [] [] [] [] [] []]; intros H;
    first [reflexivity | discriminate H].
Qed.

Lemma test_x c :
  test true (one "x") c = true -> c = "x"%char \/ c = "X"%char.
Proof.
  destruct c as [[] [] [] [] [] [] [] []]; intros H;
    first [left; reflexivity | right; reflexivity | discriminate H].
Qed.

Lemma all_chars_ext p q s :
  (forall c, p c = q c) -> all_chars p s = all_chars q s.
Proof.
  intros H. induction s as [|c s IH]; simpl; [reflexivity|].
  now rewrite H, IH.
Qed.

(** The offset group [(0x[0-9A-F]+)] under [re.IGNORECASE]. *)
Lemma denotes_offset total s s' caps :
  denotes true total (Grp (Lit "0x" >> Plus cls_HEX)) s s' caps ->
  exists x hex,
    caps = [String "0" (String x hex)]
    /\ (x = "x"%char \/ x = "X"%char)
    /\ hex <> EmptyString /\ all_chars hexdigit hex = true.
Proof.
  intros H. inversion H as [| | | | | | | | | | |r s0 s0' caps0 Hseq| | |];
    subst.
  pose proof (denotes_groupless _ _ _ _ _ _ Hseq eq_refl) as ->.
  inversion Hseq as [| | | | | | | | | |r1 r2 s1 s2 s3 c1 c2 Hlit Hplus| | | |];
    subst.
  inversion Hlit as [| |a l c0 t0 t0' Hc0 Hlit'| | | | | | | | | | | |]; subst.
  inversion Hlit' as [| |a l c1 t1 t1' Hc1 Hlit''| | | | | | | | | | | |]; subst.
  inversion Hlit''; subst.
  apply denotes_plus_word in Hplus as [-> (hex & -> & Hne & Hhex)].
  apply test_zero in Hc0 as ->.
  exists c1, hex. split.
  - cbn [List.app].
    change (String "0" (String c1 (hex ++ s')))
      with (String "0" (String c1 hex) ++ s').
    now rewrite capture_prefix.
  - split; [now apply test_x|]. split; [exact Hne|].
    now rewrite <- (all_chars_ext _ _ hex test_hex).
Qed.

Lemma denotes_seq ic total r1 r2 s s2 caps :
  denotes ic total (r1 >> r2) s s2 caps ->
  exists s1 caps1 caps2,
    denotes ic total r1 s s1 caps1 /\ denotes ic total r2 s1 s2 caps2
    /\ caps = (caps1 ++ caps2)%list.
Proof. intros H. inversion H; subst. eauto 6. Qed.

Lemma denotes_skip ic total r1 r2 s s2 caps :
  groupless r1 = true ->
  denotes ic total (r1 >> r2) s s2 caps ->
  exists s1, denotes ic total r2 s1 s2 caps.
Proof.
  intros Hg H. apply denotes_seq in H as (s1 & c1 & c2 & H1 & H2 & ->).
  rewrite (denotes_groupless _ _ _ _ _ _ H1 Hg). eauto.
Qed.

Lemma denotes_group_groupless ic total r s s' caps :
  groupless r = true ->
  denotes ic total (Grp r) s s' caps -> exists w, caps = [w].
Proof.
  intros Hg H. inversion H; subst.
  match goal with
  | Hr : denotes _ _ r _ _ _ |- _ =>
      rewrite (denotes_groupless _ _ _ _ _ _ Hr Hg)
  end.
  eexists. reflexivity.
Qed.

(** The groups of a match of the class-field pattern. *)
Lemma field_re_groups total s rest caps :
  denotes true total field_re s rest caps ->
  exists type name x hex,
    caps = [type; name; String "0" (String x hex)]
    /\ name <> EmptyString /\ all_chars cls_w name = true
    /\ (x = "x"%char \/ x = "X"%char)
    /\ hex <> EmptyString /\ all_chars hexdigit hex = true.
Proof.
  unfold field_re. intros H.
  apply denotes_skip in H as [s1 H]; [|reflexivity].
  apply denotes_seq in H as (s2 & c1 & c2 & Htype & H & ->).
  apply denotes_group_groupless in Htype as [type ->]; [|reflexivity].
  apply denotes_skip in H as [s3 H]; [|reflexivity].
  apply denotes_seq in H as (s4 & c3 & c4 & Hname & H & ->).
  apply denotes_group_plus in Hname as (name & -> & _ & Hne & Hname).
  apply denotes_skip in H as [s5 H]; [|reflexivity].
  apply denotes_skip in H as [s6 H]; [|reflexivity].
  apply denotes_skip in H as [s7 H]; [|reflexivity].
  apply denotes_skip in H as [s8 H]; [|reflexivity].
  apply denotes_offset in H as (x & hex & -> & Hx & Hhne & Hhex).
  exists type, name, x, hex. split; [reflexivity|].
  split; [exact Hne|].
  split; [now rewrite <- (all_chars_ext _ _ name test_word)|].
  auto.
Qed.

(** X26.  Every line the class-field extractor emits is a [FIELD] line
    whose type is not empty, whose name is a non-empty run of word
    characters, and whose offset is [0x] or [0X] followed by at least one
    hexadecimal digit. *)
Theorem field_line_tokens (line out : string) :
  convert_line_to_field init line = Return (Some out) ->
  exists offset type name x hex,
    out = FIELD offset type name
    /\ type <> EmptyString
    /\ name <> EmptyString /\ all_chars cls_w name = true
    /\ offset = String "0" (String x hex)
    /\ (x = "x"%char \/ x = "X"%char)
    /\ hex <> EmptyString /\ all_chars hexdigit hex = true.
Proof.
  unfold convert_line_to_field.
  destruct (re_match true field_re line) as [[rest caps]|] eqn:Hm;
    [|discriminate].
  apply at_pos_sound, field_re_groups in Hm
    as (ty & name & x & hex & -> & Hne & Hname & Hx & Hhne & Hhex).
  unfold group. cbn [snd nth Nat.sub].
  destruct (convert_type init ty) as [[t|]| |]; cbn [bind]; try discriminate.
  destruct (truthy t) eqn:Ht; [|discriminate].
  intros [= <-]. exists (String "0" (String x hex)), t, name, x, hex.
  split; [reflexivity|]. split.
  - intros ->. discriminate Ht.
  - auto 6.
Qed.

Lemma field_line_tokens_witness :
  convert_line_to_field init target_actor_line
  = Return (Some (FIELD "0x0120" "AActor*"
                    "TargetActor_2_1A2B3C4D5E6F7890ABCDEF1234567890"))
  /\ exists offset type name x hex,
       FIELD "0x0120" "AActor*"
         "TargetActor_2_1A2B3C4D5E6F7890ABCDEF1234567890"
       = FIELD offset type name
       /\ type <> EmptyString
       /\ name <> EmptyString /\ all_chars cls_w name = true
       /\ offset = String "0" (String x hex)
       /\ (x = "x"%char \/ x = "X"%char)
       /\ hex <> EmptyString /\ all_chars hexdigit hex = true.
Proof.
  split; [reflexivity|].
  exact (field_line_tokens target_actor_line _ eq_refl).
Defined.
